(** * RustyHook hook execution engine: a shallow embedding in Rocq

    Models of [src/runner/file_matcher.rs], [src/runner/hook_context.rs],
    [src/runner/hook_resolver.rs], [src/runner/parallel.rs],
    [src/cache/mod.rs] and the version lookup of
    [src/toolchains/python.rs].  Effects the code gets from the operating
    system (regex engine, subprocess spawning, clock, file contents) are
    section variables; everything the Rust code computes itself is written
    out.  Unix is assumed wherever the code branches on [cfg!(windows)]. *)

From stdpp Require Import base gmap strings list.
From Stdlib Require Import String Ascii Bool Arith Lia NArith.

Open Scope string_scope.

(** ** Shared data model ([src/config/parser.rs]) *)

(** [Result<T, E>] *)
Inductive result (A E : Type) : Type :=
| Ok : A -> result A E
| Err : E -> result A E.
Arguments Ok {A E} _.
Arguments Err {A E} _.

Inductive HookType := BuiltIn | External.
Inductive AccessMode := Read | ReadWrite.

Definition HookType_eqb (a b : HookType) : bool :=
  match a, b with
  | BuiltIn, BuiltIn | External, External => true
  | _, _ => false
  end.

Definition AccessMode_eqb (a b : AccessMode) : bool :=
  match a, b with
  | Read, Read | ReadWrite, ReadWrite => true
  | _, _ => false
  end.

(** [PathBuf]: an OS string, i.e. bytes on Unix. *)
Definition PathBuf := list Byte.byte.

Record Hook := mkHook {
  id : string;
  name : string;
  entry : string;
  language : string;
  files : string;
  stages : list string;
  args : list string;
  env : list (string * string);
  version : option string;
  hook_type : HookType;
  separate_process : bool;
  access_mode : AccessMode
}.

Record Repo := mkRepo { repo : string; hooks : list Hook }.

Record Config := mkConfig {
  default_stages : list string;
  fail_fast : bool;
  parallelism : nat;
  repos : list Repo
}.

(** [std::io::ErrorKind], reduced to the kinds the engine distinguishes. *)
Inductive ErrorKind := NotFound | PermissionDenied | AlreadyExists | IsADirectory | OtherKind.

(** [ToolError] of [src/toolchains/trait.rs]. *)
Inductive ToolError :=
| ToolNotFound (msg : string)
| InstallationError (msg : string)
| ExecutionError (msg : string)
| ToolIoError (k : ErrorKind).

(** [HookContextError] as declared in [src/runner/hook_context.rs]. *)
Inductive HookContextError :=
| HCProcessError (msg : string)
| HCIoError (k : ErrorKind)
| HCHookError (msg : string)
| HCToolError (e : ToolError).

(** [FileMatcherError]: the regex or glob did not compile. *)
Inductive FileMatcherError := RegexError | GlobError.

(** [HookResolverError] of [src/runner/hook_resolver.rs]. *)
Inductive HookResolverError :=
| RFileMatcherError (e : FileMatcherError)
| RToolError (e : ToolError)
| RHookError (msg : string)
| HookNotFound (msg : string)
| UnsupportedLanguage (lang : string)
| RProcessError (msg : string)
| RIoError (k : ErrorKind)
| FileNotFound (path : PathBuf) (context : string).

(** [ParallelExecutionError] of [src/runner/parallel.rs]. *)
Inductive ParallelExecutionError :=
| PHookResolverError (e : HookResolverError)
| TokioError.

(** ** Sample inputs

    A small configuration used by the examples at the end of the file:
    one read-only hook and three read-write hooks, two of them with
    disjoint patterns and one without pattern, over two staged files. *)

Definition sample_hook (i entry lang f : string) (m : AccessMode) : Hook :=
  mkHook i i entry lang f [] [] [] None External false m.

Definition sample_R1 : Hook := sample_hook "R1" "echo" "system" "" Read.
Definition sample_W1 : Hook := sample_hook "W1" "echo" "system" "src/" ReadWrite.
Definition sample_W2 : Hook := sample_hook "W2" "echo" "system" "docs/" ReadWrite.
Definition sample_W3 : Hook := sample_hook "W3" "echo" "system" "" ReadWrite.

Definition sample_config : Config :=
  mkConfig ["pre-commit"] false 0 [mkRepo "local" [sample_R1; sample_W1; sample_W2; sample_W3]].

Definition sample_src : PathBuf := list_byte_of_string "src/a.rs".
Definition sample_doc : PathBuf := list_byte_of_string "docs/b.md".
Definition sample_files : list PathBuf := [sample_src; sample_doc].

(** The batches the scheduler dispatches for [sample_config]: the read
    pool, the group [W1; W2], then [W3] alone. *)
Definition sample_trace : list (list (string * string * Hook * list PathBuf)) :=
  [[("local", "R1", sample_R1, sample_files)];
   [("local", "W1", sample_W1, [sample_src]); ("local", "W2", sample_W2, [sample_doc])];
   [("local", "W3", sample_W3, sample_files)]].

(** A regex engine for the examples: a pattern matches the paths it
    prefixes. *)
Definition sample_regex_is_match (r s : string) : bool := String.prefix r s.

(** A Python hook. *)
Definition sample_black : Hook :=
  mkHook "black" "black" "black" "python" "" [] [] [] None BuiltIn false ReadWrite.

(** The configuration of [sample_config] with batches of at most one
    hook. *)
Definition sample_config_p1 : Config :=
  mkConfig ["pre-commit"] false 1 (repos sample_config).

(** Two repositories named [local]; only the second has the hook [W1]. *)
Definition sample_dup_config : Config :=
  mkConfig [] false 0 [mkRepo "local" [sample_R1]; mkRepo "local" [sample_W1]].

(** One repository with two in-process hooks sharing the id [dup]: the
    first matches [docs/], the second [src/]. *)
Definition sample_dup_docs : Hook :=
  mkHook "dup" "dup" "echo" "system" "docs/" [] [] [] None BuiltIn false ReadWrite.
Definition sample_dup_src : Hook :=
  mkHook "dup" "dup" "echo" "system" "src/" [] [] [] None BuiltIn false ReadWrite.
Definition sample_dupid_config : Config :=
  mkConfig [] false 0 [mkRepo "local" [sample_dup_docs; sample_dup_src]].

(** One repository holding the Python hook [black]. *)
Definition sample_black_config : Config :=
  mkConfig [] false 0 [mkRepo "local" [sample_black]].

Set Default Proof Using "Type".

Section Engine.

(** ** File matcher ([src/runner/file_matcher.rs]) *)

(** The regex and globset crates, and [Path::to_string_lossy]. *)
Variable Regex : Type.
Variable Regex_new : string -> option Regex.
Variable regex_is_match : Regex -> string -> bool.
Variable GlobSet : Type.
Variable globset_is_match : GlobSet -> PathBuf -> bool.
Variable to_string_lossy : PathBuf -> string.

Inductive FileMatcher :=
| FMRegex (r : Regex)
| FMGlob (g : GlobSet).

Definition from_regex (pattern : string) : result FileMatcher FileMatcherError :=
  match Regex_new pattern with
  | Some r => Ok (FMRegex r)
  | None => Err RegexError
  end.

Definition matches (m : FileMatcher) (path : PathBuf) : bool :=
  let path_str := to_string_lossy path in
  match m with
  | FMRegex r => regex_is_match r path_str
  | FMGlob g => globset_is_match g path
  end.

Definition filter_files (m : FileMatcher) (fs : list PathBuf) : list PathBuf :=
  List.filter (fun p => matches m p) fs.

(** ** Hook context ([src/runner/hook_context.rs]) *)

(** Operating-system services used by [run_in_separate_process]:
    [Command::output] and [String::from_utf8_lossy]. *)
Inductive OsArg := ArgStr (s : string) | ArgPath (p : PathBuf).

Record Command := mkCommand {
  program : string;
  cmd_args : list OsArg;
  cmd_envs : list (string * string);
  cmd_current_dir : PathBuf
}.

Record Output := mkOutput { status_success : bool; stderr : list Byte.byte }.

Variable command_output : Command -> result Output ErrorKind.
Variable from_utf8_lossy : list Byte.byte -> string.

(** [str] holds UTF-8.  [utf8_chars] cuts a string into its [char]s,
    each with its scalar value and its bytes; a byte that does not start
    a well-formed sequence (impossible in a [str]) stands alone with the
    value of [char::REPLACEMENT_CHARACTER]. *)
Definition is_cont (b : ascii) : bool := ((128 <=? N_of_ascii b) && (N_of_ascii b <? 192))%N.

Fixpoint utf8_chars (s : string) : list (N * string) :=
  match s with
  | EmptyString => []
  | String a s1 =>
      let n := N_of_ascii a in
      if (n <? 128)%N then (n, String a EmptyString) :: utf8_chars s1
      else if ((192 <=? n) && (n <? 224))%N then
        match s1 with
        | String b s2 =>
            if is_cont b
            then (((n - 192) * 64 + (N_of_ascii b - 128))%N, String a (String b EmptyString))
                   :: utf8_chars s2
            else (65533%N, String a EmptyString) :: utf8_chars s1
        | EmptyString => [(65533%N, String a EmptyString)]
        end
      else if ((224 <=? n) && (n <? 240))%N then
        match s1 with
        | String b (String c s3) =>
            if is_cont b && is_cont c
            then ((((n - 224) * 64 + (N_of_ascii b - 128)) * 64 + (N_of_ascii c - 128))%N,
                  String a (String b (String c EmptyString))) :: utf8_chars s3
            else (65533%N, String a EmptyString) :: utf8_chars s1
        | _ => (65533%N, String a EmptyString) :: utf8_chars s1
        end
      else if ((240 <=? n) && (n <? 248))%N then
        match s1 with
        | String b (String c (String d s4)) =>
            if is_cont b && is_cont c && is_cont d
            then (((((n - 240) * 64 + (N_of_ascii b - 128)) * 64 + (N_of_ascii c - 128)) * 64
                   + (N_of_ascii d - 128))%N,
                  String a (String b (String c (String d EmptyString)))) :: utf8_chars s4
            else (65533%N, String a EmptyString) :: utf8_chars s1
        | _ => (65533%N, String a EmptyString) :: utf8_chars s1
        end
      else (65533%N, String a EmptyString) :: utf8_chars s1
  end.

(** The bytes of a sequence of [char]s. *)
Definition chars_bytes (cs : list (N * string)) : string :=
  fold_right (fun ch acc => ch.2 ++ acc) EmptyString cs.

(** [char::is_whitespace]: the Unicode [White_Space] property. *)
Definition is_whitespace (c : N) : bool :=
  (((9 <=? c) && (c <=? 13)) || (c =? 32) || (c =? 133) || (c =? 160) || (c =? 5760)
  || ((8192 <=? c) && (c <=? 8202)) || (c =? 8232) || (c =? 8233) || (c =? 8239)
  || (c =? 8287) || (c =? 12288))%N.

Fixpoint split_ws_aux (cs : list (N * string)) (cur : string) : list string :=
  match cs with
  | [] => if String.eqb cur "" then [] else [cur]
  | (c, bytes) :: cs' =>
      if is_whitespace c
      then (if String.eqb cur "" then split_ws_aux cs' "" else cur :: split_ws_aux cs' "")
      else split_ws_aux cs' (cur ++ bytes)
  end.

(** [str::split_whitespace] *)
Definition split_whitespace (s : string) : list string := split_ws_aux (utf8_chars s) "".

Record HookContext := mkHookContext {
  ctx_id : string;
  ctx_name : string;
  ctx_entry : string;
  ctx_language : string;
  ctx_files : string;
  ctx_stages : list string;
  ctx_args : list string;
  ctx_env : list (string * string);
  ctx_version : option string;
  ctx_hook_type : HookType;
  ctx_separate_process : bool;
  working_dir : PathBuf;
  files_to_process : list PathBuf
}.

Definition from_hook (h : Hook) (wd : PathBuf) (fs : list PathBuf) : HookContext :=
  mkHookContext (id h) (name h) (entry h) (language h) (files h) (stages h)
    (args h) (env h) (version h) (hook_type h) (separate_process h) wd fs.

Definition should_run_in_separate_process (c : HookContext) : bool :=
  ctx_separate_process c || HookType_eqb (ctx_hook_type c) External.

Definition run_in_separate_process (c : HookContext) : result unit HookContextError :=
  match split_whitespace (ctx_entry c) with
  | [] => Err (HCProcessError ("Empty entry for hook " ++ ctx_id c))
  | command_name :: command_args =>
      let command :=
        mkCommand command_name
          (map ArgStr command_args ++ map ArgStr (ctx_args c)
             ++ map ArgPath (files_to_process c))
          (ctx_env c) (working_dir c) in
      (* [let output = command.output()?;] converts the io::Error *)
      match command_output command with
      | Err k => Err (HCIoError k)
      | Ok output =>
          if negb (status_success output)
          then Err (HCProcessError ("Hook " ++ ctx_id c ++ " failed: "
                                      ++ from_utf8_lossy (stderr output)))
          else Ok tt
      end
  end.

(** ** The [Tool] trait ([src/toolchains/trait.rs]) *)

(** The boxed [dyn Tool] values of the engine, by the arguments of
    [PythonTool::new], [NodeTool::new], [RubyTool::new] and
    [SystemTool::new]; the installation directories they derive from
    these are left out. *)
Inductive Tool :=
| PythonT (name version : string) (packages : list string)
| NodeT (name version : string) (packages : list string) (dev_dependencies : bool)
    (package_manager : string)
| RubyT (name version : string) (gems : list string)
| SystemT (name version command : string).

Definition tool_name (t : Tool) : string :=
  match t with PythonT n _ _ | NodeT n _ _ _ _ | RubyT n _ _ | SystemT n _ _ => n end.

Definition tool_version (t : Tool) : string :=
  match t with PythonT _ v _ | NodeT _ v _ _ _ | RubyT _ v _ | SystemT _ v _ => v end.

Record SetupContext := mkSetupContext {
  install_dir : string;
  cache_dir : string;
  force : bool;
  setup_version : option string
}.

(** The provisioners' [run] and [setup], acting on a filesystem state. *)
Variable FS : Type.
Variable tool_run : Tool -> list PathBuf -> result unit ToolError.
Variable tool_setup : Tool -> SetupContext -> FS -> result unit ToolError * FS.

Definition execute (c : HookContext) (tool : option Tool) : result unit HookContextError :=
  if bool_decide (files_to_process c = []) then Ok tt
  else if should_run_in_separate_process c then run_in_separate_process c
  else match tool with
       | Some t =>
           match tool_run t (files_to_process c) with
           | Ok u => Ok u
           | Err e => Err (HCToolError e)
           end
       | None => Err (HCProcessError ("No tool provided for hook " ++ ctx_id c))
       end.

(** ** Hook resolver ([src/runner/hook_resolver.rs]) *)

Record HookResolver := mkHookResolver {
  config : Config;
  resolver_cache_dir : string;
  tool_cache : gmap string Tool;
  hooks_to_skip : list string
}.

(** [Path::join] on the cache root (relative components only). *)
Definition path_join (dir comp : string) : string := dir ++ "/" ++ comp.

(** [env::current_dir()] and the [Display] of an [io::Error]. *)
Variable current_dir : result PathBuf ErrorKind.
Variable io_error_display : ErrorKind -> string.

Definition dot_path : PathBuf := [Byte.x2e].

Definition create_context (h : Hook) (fs : list PathBuf)
  : result HookContext HookResolverError :=
  match current_dir with
  | Err k =>
      Err (FileNotFound dot_path
             ("Failed to access current working directory when creating context for hook '"
                ++ id h ++ "': " ++ io_error_display k))
  | Ok wd =>
      if negb (String.eqb (files h) "") then
        match from_regex (files h) with
        | Err e => Err (RFileMatcherError e)
        | Ok matcher => Ok (from_hook h wd (filter_files matcher fs))
        end
      else Ok (from_hook h wd fs)
  end.

Definition resolve_hook (cfg : Config) (repo_id hook_id : string)
  : result Hook HookResolverError :=
  match List.find (fun r => String.eqb (repo r) repo_id) (repos cfg) with
  | None => Err (HookNotFound ("Repository " ++ repo_id ++ " not found"))
  | Some r =>
      match List.find (fun h => String.eqb (id h) hook_id) (hooks r) with
      | None => Err (HookNotFound ("Hook " ++ hook_id ++ " not found in repository " ++ repo_id))
      | Some h => Ok h
      end
  end.

Definition unwrap_or (o : option string) (d : string) : string :=
  match o with Some s => s | None => d end.

(** [hook.entry.split_whitespace().next().unwrap_or(&hook.entry)] *)
Definition package_name_of (h : Hook) : string :=
  match split_whitespace (entry h) with
  | p :: _ => p
  | [] => entry h
  end.

Definition create_tool (h : Hook) : result Tool HookResolverError :=
  let v := unwrap_or (version h) "latest" in
  let lang := language h in
  if String.eqb lang "python" then
    let package_name := package_name_of h in
    let package :=
      if String.eqb package_name "pre-commit-hooks" then "pre-commit-hooks"
      else if String.eqb package_name "ruff" then "ruff"
      else if String.eqb package_name "shellcheck" then "shellcheck-py"
      else if String.eqb package_name "codespell" then "codespell"
      else if String.eqb package_name "djhtml" then "djhtml"
      else package_name in
    Ok (PythonT (id h) v [package])
  else if String.eqb lang "node" || String.eqb lang "javascript"
          || String.eqb lang "typescript" then
    let package_name := package_name_of h in
    let package := if String.eqb package_name "biome" then "@biomejs/biome"
                   else package_name in
    (* [NodeTool::new(hook.id, version, packages, true, None)]: the
       package manager defaults to npm *)
    Ok (NodeT (id h) v [package] true "npm")
  else if String.eqb lang "ruby" then
    Ok (RubyT (id h) v [package_name_of h])
  else if String.eqb lang "system" then
    Ok (SystemT (id h) v (entry h))
  else Err (UnsupportedLanguage lang).

(** The resolver together with the filesystem its tools install into.
    [setup_log] records, in order, the tool-cache key of every
    [Tool::setup] invocation made by [setup_tool]. *)
Record World := mkWorld {
  resolver : HookResolver;
  filesystem : FS;
  setup_log : list string
}.

Definition tool_key_of (h : Hook) : string := language h ++ "-" ++ id h.

Definition insert_tool (r : HookResolver) (k : string) (t : Tool) : HookResolver :=
  mkHookResolver (config r) (resolver_cache_dir r) (<[k := t]> (tool_cache r))
    (hooks_to_skip r).

Definition setup_tool (h : Hook) (w : World) : result Tool HookResolverError * World :=
  let r := resolver w in
  let tool_key := tool_key_of h in
  match tool_cache r !! tool_key with
  | Some t => (Ok t, w)
  | None =>
      match create_tool h with
      | Err e => (Err e, w)
      | Ok tool =>
          let ctx := mkSetupContext
                       (path_join (path_join (resolver_cache_dir r) "venvs") tool_key)
                       (path_join (path_join (resolver_cache_dir r) "cache") tool_key)
                       false (Some (unwrap_or (version h) "latest")) in
          let '(res, fs') := tool_setup tool ctx (filesystem w) in
          let log' := (setup_log w ++ [tool_key])%list in
          match res with
          | Err e => (Err (RToolError e), mkWorld r fs' log')
          | Ok _ => (Ok tool, mkWorld (insert_tool r tool_key tool) fs' log')
          end
      end
  end.

Definition map_context_error (e : HookContextError) : HookResolverError :=
  match e with
  | HCProcessError msg => RProcessError msg
  | HCIoError k => RIoError k
  | HCHookError msg => RHookError msg
  | HCToolError te => RToolError te
  end.

Definition map_context_result (r : result unit HookContextError)
  : result unit HookResolverError :=
  match r with Ok u => Ok u | Err e => Err (map_context_error e) end.

Definition run_hook (repo_id hook_id : string) (fs : list PathBuf) (w : World)
  : result unit HookResolverError * World :=
  match resolve_hook (config (resolver w)) repo_id hook_id with
  | Err e => (Err e, w)
  | Ok hook_clone =>
      match create_context hook_clone fs with
      | Err e => (Err e, w)
      | Ok context =>
          if bool_decide (files_to_process context = []) then (Ok tt, w)
          else if should_run_in_separate_process context
          then (map_context_result (run_in_separate_process context), w)
          else
            match setup_tool hook_clone w with
            | (Err e, w') => (Err e, w')
            | (Ok tool, w') => (map_context_result (execute context (Some tool)), w')
            end
      end
  end.

(** [HookResolver::run_all_hooks]: the [(repo, hook id)] pairs of the
    hooks not skipped, in configuration order, run one after the other;
    the first error ends the run. *)
Definition hooks_to_run (cfg : Config) (skip : list string) : list (string * string) :=
  flat_map (fun r => map (fun h => (repo r, id h))
                       (List.filter (fun h => negb (existsb (String.eqb (id h)) skip)) (hooks r)))
    (repos cfg).

Fixpoint run_hooks_in_order (hs : list (string * string)) (fs : list PathBuf) (w : World)
  : result unit HookResolverError * World :=
  match hs with
  | [] => (Ok tt, w)
  | (repo_id, hook_id) :: hs' =>
      match run_hook repo_id hook_id fs w with
      | (Err e, w') => (Err e, w')
      | (Ok _, w') => run_hooks_in_order hs' fs w'
      end
  end.

Definition resolver_run_all_hooks (fs : list PathBuf) (w : World)
  : result unit HookResolverError * World :=
  run_hooks_in_order (hooks_to_run (config (resolver w)) (hooks_to_skip (resolver w))) fs w.

(** What a run may change in the resolver: nothing but the tool cache,
    which only gains entries. *)
Definition resolver_frame (r r' : HookResolver) : Prop :=
  config r' = config r /\ resolver_cache_dir r' = resolver_cache_dir r /\
  hooks_to_skip r' = hooks_to_skip r /\ tool_cache r ⊆ tool_cache r'.

(** ** Parallel scheduler ([src/runner/parallel.rs]) *)

(** An execution unit [(repo_id, hook_id, hook, filtered_files)]. *)
Definition ExecUnit := (string * string * Hook * list PathBuf)%type.

Definition unit_hook (u : ExecUnit) : Hook := let '(_, _, h, _) := u in h.

(** The inner loop of [prepare_hook_contexts] over one repository. *)
Fixpoint prepare_repo_hooks (rid : string) (skip : list string) (hs : list Hook)
  (fs : list PathBuf) : result (list ExecUnit) ParallelExecutionError :=
  match hs with
  | [] => Ok []
  | h :: hs' =>
      if negb (existsb (String.eqb (id h)) skip) then
        let filtered :=
          if negb (String.eqb (files h) "") then
            match from_regex (files h) with
            | Ok matcher => Ok (filter_files matcher fs)
            | Err e => Err (PHookResolverError (RFileMatcherError e))
            end
          else Ok fs in
        match filtered with
        | Err e => Err e
        | Ok filtered_files =>
            match prepare_repo_hooks rid skip hs' fs with
            | Err e => Err e
            | Ok rest =>
                match filtered_files with
                | [] => Ok rest
                | _ => Ok ((rid, id h, h, filtered_files) :: rest)
                end
            end
        end
      else prepare_repo_hooks rid skip hs' fs
  end.

Fixpoint prepare_repos (skip : list string) (rs : list Repo) (fs : list PathBuf)
  : result (list ExecUnit) ParallelExecutionError :=
  match rs with
  | [] => Ok []
  | r :: rs' =>
      match prepare_repo_hooks (repo r) skip (hooks r) fs with
      | Err e => Err e
      | Ok us =>
          match prepare_repos skip rs' fs with
          | Err e => Err e
          | Ok rest => Ok (us ++ rest)%list
          end
      end
  end.

(** [prepare_hook_contexts] on the snapshot of the resolver's
    configuration and skip list. *)
Definition prepare_hook_contexts (cfg : Config) (skip : list string) (fs : list PathBuf)
  : result (list ExecUnit) ParallelExecutionError :=
  prepare_repos skip (repos cfg) fs.

(** The closure [hooks_overlap]. *)
Definition hooks_overlap (hook1 hook2 : Hook) : bool :=
  if String.eqb (files hook1) "" || String.eqb (files hook2) "" then true
  else String.eqb (files hook1) (files hook2).

(** One iteration of the grouping loop: first-fit over the open groups,
    opening a new group at the end when none admits the unit. *)
Fixpoint place_in_groups (u : ExecUnit) (groups : list (list ExecUnit))
  : list (list ExecUnit) :=
  match groups with
  | [] => [[u]]
  | group :: rest =>
      let can_add_to_group :=
        forallb (fun existing => negb (hooks_overlap (unit_hook existing) (unit_hook u))) group in
      if can_add_to_group then (group ++ [u])%list :: rest
      else group :: place_in_groups u rest
  end.

Definition group_write_hooks (write_hooks : list ExecUnit) : list (list ExecUnit) :=
  fold_left (fun groups u => place_in_groups u groups) write_hooks [].

(** [<[T]>::chunks(n)] for [n > 0]. *)
Fixpoint chunks_aux {A} (fuel n : nat) (l : list A) : list (list A) :=
  match fuel with
  | 0 => []
  | S fuel' =>
      match l with
      | [] => []
      | _ => take n l :: chunks_aux fuel' n (drop n l)
      end
  end.

Definition chunks {A} (n : nat) (l : list A) : list (list A) := chunks_aux (List.length l) n l.

(** [c] is a contiguous slice of [l]. *)
Definition is_infix {A} (c l : list A) : Prop := exists k1 k2, l = (k1 ++ c ++ k2)%list.

(** Task execution.  [task_outcome u] is what the task spawned for [u]
    returns (its [run_hook_with_context] result, or a [JoinError]);
    [completion_order b] is the order in which [join_next] yields the
    tasks of batch [b]. *)
Variable task_outcome : ExecUnit -> result unit ParallelExecutionError.
Variable completion_order : list ExecUnit -> list ExecUnit.

(** [while tasks.len() > 0 { tasks.join_next().await.unwrap()??; }] *)
Fixpoint join_all (us : list ExecUnit) : result unit ParallelExecutionError :=
  match us with
  | [] => Ok tt
  | u :: us' =>
      match task_outcome u with
      | Err e => Err e
      | Ok _ => join_all us'
      end
  end.

(** The scheduler's state: the batches dispatched so far, in order. *)
Definition Sched (A : Type) : Type :=
  list (list ExecUnit) -> result A ParallelExecutionError * list (list ExecUnit).

Definition sret {A} (a : A) : Sched A := fun t => (Ok a, t).
Definition sbind {A B} (m : Sched A) (k : A -> Sched B) : Sched B :=
  fun t => match m t with
           | (Ok a, t') => k a t'
           | (Err e, t') => (Err e, t')
           end.
Definition slift {A} (r : result A ParallelExecutionError) : Sched A :=
  fun t => (r, t).

Definition run_hook_batch (batch : list ExecUnit) : Sched unit :=
  fun t => (join_all (completion_order batch), (t ++ [batch])%list).

Fixpoint run_batches (bs : list (list ExecUnit)) : Sched unit :=
  match bs with
  | [] => sret tt
  | b :: bs' => sbind (run_hook_batch b) (fun _ => run_batches bs')
  end.

(** A set admitted together (the read pool, or one write group). *)
Definition run_admitted (p : nat) (set : list ExecUnit) : Sched unit :=
  if Nat.ltb 0 p then run_batches (chunks p set) else run_hook_batch set.

Fixpoint run_groups (p : nat) (groups : list (list ExecUnit)) : Sched unit :=
  match groups with
  | [] => sret tt
  | g :: gs => sbind (run_admitted p g) (fun _ => run_groups p gs)
  end.

Definition is_read_unit (u : ExecUnit) : bool := AccessMode_eqb (access_mode (unit_hook u)) Read.

Definition run_all_hooks (cfg : Config) (skip : list string) (fs : list PathBuf) : Sched unit :=
  sbind (slift (prepare_hook_contexts cfg skip fs)) (fun hook_contexts =>
  let p := parallelism cfg in
  let read_hooks := List.filter is_read_unit hook_contexts in
  let write_hooks := List.filter (fun u => negb (is_read_unit u)) hook_contexts in
  sbind (run_admitted p read_hooks) (fun _ =>
  match write_hooks with
  | [] => sret tt
  | _ => run_groups p (group_write_hooks write_hooks)
  end)).

(** ** The Python provisioner ([src/toolchains/python.rs]) *)

(** Existence of a path in the provisioners' filesystem, the base of
    [std::env::temp_dir()], and the two installation steps of [setup]. *)
Variable path_exists : FS -> string -> bool.
Variable temp_dir : string.

Record PythonTool := mkPythonTool {
  py_name : string;
  py_version : string;
  py_packages : list string;
  py_install_dir : string
}.

Variable create_virtualenv : PythonTool -> SetupContext -> FS -> result unit ToolError * FS.
Variable install_packages : PythonTool -> SetupContext -> FS -> result unit ToolError * FS.

Definition PythonTool_new (n v : string) (packages : list string) : PythonTool :=
  mkPythonTool n v packages
    (path_join (path_join (path_join temp_dir ".rustyhook") "venvs")
       ("python-" ++ n ++ "-" ++ v)).

Definition python_is_installed (t : PythonTool) (fsys : FS) : bool :=
  let python_path := path_join (path_join (py_install_dir t) "bin") "python" in
  let tool_path := path_join (path_join (py_install_dir t) "bin") (py_name t) in
  path_exists fsys python_path && path_exists fsys tool_path.

(** [impl Tool for PythonTool { fn setup .. }] *)
Definition python_setup (t : PythonTool) (ctx : SetupContext) (fsys : FS)
  : result unit ToolError * FS :=
  if python_is_installed t fsys && negb (force ctx) then (Ok tt, fsys)
  else
    match create_virtualenv t ctx fsys with
    | (Err e, fs') => (Err e, fs')
    | (Ok _, fs') => install_packages t ctx fs'
    end.

(** *** Interpreter version lookup *)

(** A directory as its components, innermost first: [/home/u] is
    [["u"; "home"; "/"]], the fallback [.] is [["."]]. *)
Definition Dir := list string.

(** [str::trim]: the [char]s at either end that are whitespace are cut. *)
Fixpoint trim_start_chars (cs : list (N * string)) : list (N * string) :=
  match cs with
  | ch :: cs' => if is_whitespace ch.1 then trim_start_chars cs' else cs
  | [] => []
  end.

Definition trim (s : string) : string :=
  chars_bytes (rev (trim_start_chars (rev (trim_start_chars (utf8_chars s))))).

(** Contents of [<dir>/.python-version]: [None] when [exists()] is false,
    [Some (Err _)] when [read_to_string] fails. *)
Variable python_version_file : Dir -> option (result string ErrorKind).
(** [std::env::current_dir()] as a [Dir]. *)
Variable current_dir_components : result Dir ErrorKind.
Variable os arch : string.

Definition version_in_file (content : option (result string ErrorKind)) : option string :=
  match content with
  | Some (Ok c) => let v := trim c in if String.eqb v "" then None else Some v
  | Some (Err _) => None
  | None => None
  end.

Fixpoint read_python_version_file (dir : Dir) : option string :=
  match version_in_file (python_version_file dir) with
  | Some v => Some v
  | None =>
      match dir with
      | [] => None
      | c :: p => if String.eqb c "/" && bool_decide (p = []) then None
                  else read_python_version_file p
      end
  end.

(** The directories [read_python_version_file] visits: [dir], then its
    parents up to the root. *)
Fixpoint ancestors (dir : Dir) : list Dir :=
  dir :: match dir with
         | [] => []
         | c :: p => if String.eqb c "/" && bool_decide (p = []) then [] else ancestors p
         end.

Definition pbs_version : string := "20240224".

Definition standalone_url (platform v : string) : string :=
  "https://github.com/indygreg/python-build-standalone/releases/download/"
    ++ pbs_version ++ "/cpython-" ++ v ++ "-" ++ pbs_version ++ "-" ++ platform.

Definition get_python_download_url (ctx : option SetupContext) : result string ToolError :=
  let v :=
    match ctx with
    | None => "3.9.18"
    | Some _ =>
        let cwd := match current_dir_components with Ok d => d | Err _ => ["."] end in
        match read_python_version_file cwd with
        | Some python_version => python_version
        | None => "3.9.18"
        end
    end in
  if String.eqb os "windows" && String.eqb arch "x86_64" then
    Ok (standalone_url "windows-amd64-shared-pgo.tar.zst" v)
  else if String.eqb os "windows" && String.eqb arch "aarch64" then
    Ok (standalone_url "windows-arm64-shared-pgo.tar.zst" v)
  else if String.eqb os "macos" && String.eqb arch "x86_64" then
    Ok (standalone_url "macos-x86_64-shared-install_only.tar.zst" v)
  else if String.eqb os "macos" && String.eqb arch "aarch64" then
    Ok (standalone_url "macos-arm64-shared-install_only.tar.zst" v)
  else if String.eqb os "linux" && String.eqb arch "x86_64" then
    Ok (standalone_url "linux-x86_64-shared-install_only.tar.zst" v)
  else if String.eqb os "linux" && String.eqb arch "aarch64" then
    Ok (standalone_url "linux-aarch64-shared-install_only.tar.zst" v)
  else Err (ExecutionError ("Unsupported OS/architecture: " ++ os ++ "/" ++ arch)).

(** The Node.js provisioner's version choice ([src/toolchains/node.rs]),
    the sibling of the lookup above. *)
Variable node_version_file nvmrc_file : Dir -> option (result string ErrorKind).

Fixpoint read_node_version_file (dir : Dir) : option string :=
  match version_in_file (node_version_file dir) with
  | Some v => Some v
  | None =>
      match version_in_file (nvmrc_file dir) with
      | Some v => Some v
      | None =>
          match dir with
          | [] => None
          | c :: p => if String.eqb c "/" && bool_decide (p = []) then None
                      else read_node_version_file p
          end
      end
  end.

Definition determine_node_version (specified_version : option string) : result string ToolError :=
  match specified_version with
  | Some v => if String.eqb v "lts" then Ok "20.11.1" else Ok v
  | None =>
      let cwd := match current_dir_components with Ok d => d | Err _ => ["."] end in
      match read_node_version_file cwd with
      | Some v => Ok v
      | None => Ok "20.11.1"
      end
  end.

(** ** Cache manager ([src/cache/mod.rs]) *)

(** The tree under the cache directory: files, directories and sockets
    (the special files a directory can come to hold; opening one for
    reading or writing fails with [ENXIO]), each with its modification
    time (nanoseconds on the system clock).  A path is the text of its
    components joined by [/]. *)
Inductive Node := NFile (data : string) (mtime : N) | NDir (mtime : N) | NSocket (mtime : N).
Definition node_mtime (n : Node) : N := match n with NFile _ m | NDir m | NSocket m => m end.

Record CacheManager := mkCacheManager { cm_cache_dir : string; max_age : N }.

Inductive CacheError := CIoError (k : ErrorKind) | SerializationError.

(** [serde_yaml::to_string] and [serde_yaml::from_str] at the entry type. *)
Variable V : Type.
Variable serialize : V -> result string unit.
Variable deserialize : string -> result V unit.

(** What the operating system refuses, beyond what the tree decides:
    [removal_error p] is the error of unlinking the file or removing the
    empty directory at [p] (no write permission on its parent, a
    read-only mount, a busy mount point), and [dir_entry_error p] the
    error the directory iterator yields in place of the entry [p]. *)
Variable removal_error : string -> option ErrorKind.
Variable dir_entry_error : string -> option ErrorKind.

(** [SystemTime::elapsed]: fails when the time lies in the future. *)
Definition elapsed (mtime now : N) : option N :=
  if (mtime <=? now)%N then Some (now - mtime)%N else None.

(** [Path::parent] of a joined path: the text before the last [/]. *)
Fixpoint before_last_slash (s : string) : option string :=
  match s with
  | EmptyString => None
  | String c s' =>
      match before_last_slash s' with
      | Some p => Some (String c p)
      | None => if Ascii.eqb c "/" then Some "" else None
      end
  end.

Definition path_parent (p : string) : string :=
  match before_last_slash p with Some q => q | None => "" end.

(** [fs::create_dir_all]: nothing to do for the empty path (the root or
    the working directory) or an existing directory; otherwise [mkdir],
    which needs the parent to be a directory, creating the missing
    parent first.  The recursion follows the path's parents, each
    shorter than the last, so the fuel [String.length p] never runs
    out. *)
Fixpoint create_dir_all_aux (fuel : nat) (p : string) (cfs : gmap string Node) (now : N)
  : result (gmap string Node) ErrorKind :=
  if String.eqb p "" then Ok cfs
  else match cfs !! p with
       | Some (NDir _) => Ok cfs
       | Some _ => Err AlreadyExists
       | None =>
           let q := path_parent p in
           if String.eqb q "" then Ok (<[p := NDir now]> cfs)
           else match cfs !! q with
                | Some (NDir _) => Ok (<[p := NDir now]> cfs)
                | Some _ => Err OtherKind   (* [ENOTDIR] *)
                | None =>
                    match fuel with
                    | O => Err NotFound
                    | S fuel' =>
                        match create_dir_all_aux fuel' q cfs now with
                        | Err k => Err k
                        | Ok cfs1 => Ok (<[p := NDir now]> cfs1)
                        end
                    end
                end
       end.

Definition create_dir_all (p : string) (cfs : gmap string Node) (now : N)
  : result (gmap string Node) ErrorKind :=
  create_dir_all_aux (String.length p) p cfs now.

(** [fs::write] *)
Definition write_file (p data : string) (cfs : gmap string Node) (now : N)
  : result (gmap string Node) ErrorKind :=
  match cfs !! p with
  | Some (NDir _) => Err IsADirectory
  | Some (NSocket _) => Err OtherKind
  | _ => Ok (<[p := NFile data now]> cfs)
  end.

Definition is_valid (cm : CacheManager) (key : string) (cfs : gmap string Node) (now : N) : bool :=
  let path := path_join (cm_cache_dir cm) key in
  match cfs !! path with
  | None => false
  | Some n =>
      match elapsed (node_mtime n) now with
      | Some e => (e <? max_age cm)%N
      | None => false
      end
  end.

Definition get (cm : CacheManager) (key : string) (cfs : gmap string Node) (now : N)
  : result (option V) CacheError :=
  let path := path_join (cm_cache_dir cm) key in
  if negb (is_valid cm key cfs now) then Ok None
  else
    match cfs !! path with
    | Some (NFile data _) =>
        match deserialize data with
        | Ok value => Ok (Some value)
        | Err _ => Err SerializationError
        end
    | Some (NDir _) => Err (CIoError IsADirectory)
    | Some (NSocket _) => Err (CIoError OtherKind)
    | None => Err (CIoError NotFound)
    end.

Definition set (cm : CacheManager) (key : string) (value : V) (cfs : gmap string Node) (now : N)
  : result unit CacheError * gmap string Node :=
  let path := path_join (cm_cache_dir cm) key in
  match create_dir_all (path_parent path) cfs now with
  | Err k => (Err (CIoError k), cfs)
  | Ok cfs1 =>
      match serialize value with
      | Err _ => (Err SerializationError, cfs1)
      | Ok data =>
          match write_file path data cfs1 now with
          | Err k => (Err (CIoError k), cfs1)
          | Ok cfs2 => (Ok tt, cfs2)
          end
      end
  end.


(** [fs::remove_file]: fails on a directory or a missing path, or when
    the system refuses the unlink. *)
Definition remove_file (p : string) (cfs : gmap string Node)
  : result (gmap string Node) ErrorKind :=
  match cfs !! p with
  | Some (NDir _) => Err IsADirectory
  | Some _ =>
      match removal_error p with
      | Some k => Err k
      | None => Ok (delete p cfs)
      end
  | None => Err NotFound
  end.


(** The paths directly inside [dir], in the map's order. *)
Definition dir_children (dir : string) (cfs : gmap string Node) : list string :=
  map fst (List.filter (fun pn => bool_decide (before_last_slash pn.1 = Some dir))
             (map_to_list cfs)).

(** [fs::read_dir]: the iterator's items, each an entry or an error. *)
Definition read_dir (dir : string) (cfs : gmap string Node)
  : result (list (result string ErrorKind)) ErrorKind :=
  match cfs !! dir with
  | Some (NDir _) =>
      Ok (map (fun p => match dir_entry_error p with Some k => Err k | None => Ok p end)
             (dir_children dir cfs))
  | Some _ => Err OtherKind   (* [ENOTDIR] *)
  | None => Err NotFound
  end.

(** [unlinkat(fd, child, 0)] on an entry that is not a directory. *)
Definition unlink (p : string) (cfs : gmap string Node) : result unit ErrorKind * gmap string Node :=
  match cfs !! p with
  | None => (Err NotFound, cfs)
  | Some _ =>
      match removal_error p with
      | Some k => (Err k, cfs)
      | None => (Ok tt, delete p cfs)
      end
  end.

(** [unlinkat(.., AT_REMOVEDIR)], whose [NotFound] is ignored; a
    directory that still has entries is not removed ([ENOTEMPTY]). *)
Definition rmdir (p : string) (cfs : gmap string Node) : result unit ErrorKind * gmap string Node :=
  match cfs !! p with
  | None => (Ok tt, cfs)
  | Some _ =>
      match removal_error p with
      | Some k => (Err k, cfs)
      | None =>
          if bool_decide (dir_children p cfs = []) then (Ok tt, delete p cfs)
          else (Err OtherKind, cfs)
      end
  end.

(** The loop of [remove_dir_all_recursive] over a directory's entries:
    a directory is removed recursively ([rec]), any other entry is
    unlinked; a [NotFound] is passed over, any other error ends the
    loop. *)
Fixpoint remove_children (rec : string -> gmap string Node -> result unit ErrorKind * gmap string Node)
    (cs : list string) (cfs : gmap string Node) : result unit ErrorKind * gmap string Node :=
  match cs with
  | [] => (Ok tt, cfs)
  | c :: cs' =>
      match dir_entry_error c with
      | Some k => (Err k, cfs)
      | None =>
          let '(r, cfs1) :=
            match cfs !! c with
            | Some (NDir _) => rec c cfs
            | _ => unlink c cfs
            end in
          match r with
          | Ok _ | Err NotFound => remove_children rec cs' cfs1
          | Err k => (Err k, cfs1)
          end
      end
  end.

(** [remove_dir_all_recursive]: the entries, then the directory itself.
    Every level goes one directory deeper along distinct paths of the
    tree, so the fuel [S (size cfs)] given by [remove_dir_all] never runs
    out. *)
Fixpoint remove_tree (fuel : nat) (p : string) (cfs : gmap string Node)
  : result unit ErrorKind * gmap string Node :=
  match fuel with
  | O => (Err OtherKind, cfs)
  | S fuel' =>
      match remove_children (remove_tree fuel') (dir_children p cfs) cfs with
      | (Err k, cfs1) => (Err k, cfs1)
      | (Ok _, cfs1) => rmdir p cfs1
      end
  end.

(** [fs::remove_dir_all] on a directory. *)
Definition remove_dir_all (p : string) (cfs : gmap string Node)
  : result unit ErrorKind * gmap string Node :=
  match cfs !! p with
  | Some (NDir _) => remove_tree (S (size cfs)) p cfs
  | Some _ => (Err OtherKind, cfs)
  | None => (Err NotFound, cfs)
  end.

(** The loop of [clear] over the directory's entries: a file is removed,
    a directory removed with its contents, anything else left alone. *)
Fixpoint clear_entries (es : list (result string ErrorKind)) (cfs : gmap string Node)
  : result unit ErrorKind * gmap string Node :=
  match es with
  | [] => (Ok tt, cfs)
  | Err k :: _ => (Err k, cfs)
  | Ok p :: es' =>
      match cfs !! p with
      | Some (NFile _ _) =>
          match remove_file p cfs with
          | Ok cfs' => clear_entries es' cfs'
          | Err k => (Err k, cfs)
          end
      | Some (NDir _) =>
          match remove_dir_all p cfs with
          | (Ok _, cfs') => clear_entries es' cfs'
          | (Err k, cfs') => (Err k, cfs')
          end
      | _ => clear_entries es' cfs
      end
  end.

Definition clear (cm : CacheManager) (cfs : gmap string Node)
  : result unit CacheError * gmap string Node :=
  match read_dir (cm_cache_dir cm) cfs with
  | Err k => (Err (CIoError k), cfs)
  | Ok es =>
      match clear_entries es cfs with
      | (Ok _, cfs') => (Ok tt, cfs')
      | (Err k, cfs') => (Err (CIoError k), cfs')
      end
  end.



(** ** Facts *)

Local Open Scope list_scope.

Lemma from_hook_files_to_process h wd l : files_to_process (from_hook h wd l) = l.
Proof. reflexivity. Qed.

(** C3: the file list a hook's context carries is the input list itself
    when the hook has no [files] pattern, and otherwise exactly the
    input paths, in input order, whose lossy text the compiled regex
    matches. *)
Theorem create_context_files_to_process (h : Hook) (l : list PathBuf) (c : HookContext) :
  create_context h l = Ok c ->
  (files h = "" -> files_to_process c = l) /\
  (files h <> "" ->
   exists r, Regex_new (files h) = Some r /\
     files_to_process c = List.filter (fun p => regex_is_match r (to_string_lossy p)) l /\
     files_to_process c `sublist_of` l /\
     (forall p, In p (files_to_process c) <-> In p l /\ regex_is_match r (to_string_lossy p) = true)).
Proof.
  unfold create_context, from_regex.
  destruct current_dir as [wd|k]; [|discriminate].
  destruct (String.eqb_spec (files h) "") as [He|Hne]; simpl.
  - intros [= <-]. split; [reflexivity|]. intros Hne; contradiction.
  - destruct (Regex_new (files h)) as [r|] eqn:Hr; [|discriminate].
    intros [= <-]. split; [intros; contradiction|]. intros _.
    exists r. rewrite from_hook_files_to_process. unfold filter_files, matches.
    split; [reflexivity|]. split; [|split].
    + reflexivity.
    + induction l as [|x l IH]; simpl; [constructor|].
      destruct (regex_is_match r (to_string_lossy x)); by constructor.
    + intros p. apply filter_In.
Qed.

(** Filtering with a compiled matcher is idempotent. *)
Lemma filter_files_idempotent (m : FileMatcher) (l : list PathBuf) :
  filter_files m (filter_files m l) = filter_files m l.
Proof.
  unfold filter_files. induction l as [|x l IH]; simpl; [reflexivity|].
  destruct (matches m x) eqn:Hx; simpl; [rewrite Hx, IH|]; exact IH || reflexivity.
Qed.

(** C7: a context with files runs as a subprocess exactly when its hook
    is external or asks for a separate process; otherwise [execute]
    hands the files to the supplied tool's [run]. *)
Theorem execute_dispatch (c : HookContext) :
  files_to_process c <> [] ->
  (should_run_in_separate_process c = true <->
     ctx_hook_type c = External \/ ctx_separate_process c = true) /\
  (should_run_in_separate_process c = true ->
     forall tool, execute c tool = run_in_separate_process c) /\
  (should_run_in_separate_process c = false ->
     forall t, execute c (Some t) =
               match tool_run t (files_to_process c) with
               | Ok u => Ok u
               | Err e => Err (HCToolError e)
               end).
Proof.
  intros Hne. unfold execute.
  rewrite (bool_decide_eq_false_2 _ Hne).
  split; [|split].
  - unfold should_run_in_separate_process.
    destruct (ctx_separate_process c), (ctx_hook_type c); simpl; split; intros H;
      try reflexivity; try (right; reflexivity); try (left; reflexivity);
      try discriminate; destruct H; discriminate.
  - intros ->. reflexivity.
  - intros ->. reflexivity.
Qed.


(** *** Grouping of read-write units *)

Lemma hooks_overlap_true_iff (h1 h2 : Hook) :
  hooks_overlap h1 h2 = true <-> files h1 = "" \/ files h2 = "" \/ files h1 = files h2.
Proof.
  unfold hooks_overlap.
  destruct (String.eqb_spec (files h1) "") as [E1|N1], (String.eqb_spec (files h2) "") as [E2|N2];
    simpl.
  - split; [intros _; left; exact E1|reflexivity].
  - split; [intros _; left; exact E1|reflexivity].
  - split; [intros _; right; left; exact E2|reflexivity].
  - rewrite String.eqb_eq. split.
    + intros H. right. right. exact H.
    + intros [H|[H|H]]; [contradiction|contradiction|exact H].
Qed.

Lemma hooks_overlap_false_iff (h1 h2 : Hook) :
  hooks_overlap h1 h2 = false <-> files h1 <> files h2 /\ files h1 <> "" /\ files h2 <> "".
Proof.
  rewrite <- not_true_iff_false, hooks_overlap_true_iff. split.
  - intros H. split; [|split]; intros E; apply H.
    + right. right. exact E.
    + left. exact E.
    + right. left. exact E.
  - intros (A & B & C) [E|[E|E]]; contradiction.
Qed.

Lemma hooks_overlap_sym (h1 h2 : Hook) : hooks_overlap h1 h2 = hooks_overlap h2 h1.
Proof.
  apply eq_true_iff_eq. rewrite !hooks_overlap_true_iff. split.
  - intros [E|[E|E]].
    + right. left. exact E.
    + left. exact E.
    + right. right. symmetry. exact E.
  - intros [E|[E|E]].
    + right. left. exact E.
    + left. exact E.
    + right. right. symmetry. exact E.
Qed.

Definition disjoint_units (a b : ExecUnit) : Prop :=
  hooks_overlap (unit_hook a) (unit_hook b) = false.

(** What every write group satisfies: its members are pairwise
    non-overlapping, it is not empty, and a member without pattern is
    alone in it. *)
Definition group_ok (g : list ExecUnit) : Prop :=
  ForallOrdPairs disjoint_units g /\ g <> [] /\
  (forall x, In x g -> files (unit_hook x) = "" -> g = [x]).

Lemma ForallOrdPairs_snoc {A} (R : A -> A -> Prop) (g : list A) (u : A) :
  ForallOrdPairs R g -> Forall (fun e => R e u) g -> ForallOrdPairs R (g ++ [u]).
Proof.
  induction 1 as [|a g Ha Hg IH]; simpl; intros Hall.
  - repeat constructor.
  - inversion Hall as [|? ? Hau Hrest]; subst.
    constructor; [|by apply IH].
    apply Forall_app; split; [exact Ha|by constructor].
Qed.

Lemma ForallOrdPairs_app_inv {A} (R : A -> A -> Prop) (l1 l2 : list A) :
  ForallOrdPairs R (l1 ++ l2) -> ForallOrdPairs R l1 /\ ForallOrdPairs R l2.
Proof.
  induction l1 as [|a l1 IH]; simpl; intros H; [split; [constructor|exact H]|].
  inversion H as [|? ? Ha Hrest]; subst.
  destruct (IH Hrest) as [H1 H2]. split; [|exact H2].
  constructor; [|exact H1].
  apply Forall_app in Ha as [Ha1 _]. exact Ha1.
Qed.

Lemma ForallOrdPairs_lookup {A} (R : A -> A -> Prop) (l : list A) :
  (forall a b, R a b -> R b a) -> ForallOrdPairs R l ->
  forall i j x y, i <> j -> l !! i = Some x -> l !! j = Some y -> R x y.
Proof.
  intros Hsym. induction 1 as [|a l Ha Hl IH]; intros i j x y Hij Hi Hj;
    [discriminate|].
  destruct i as [|i], j as [|j]; simpl in *.
  - congruence.
  - injection Hi as <-. exact (proj1 (Forall_lookup _ _) Ha j y Hj).
  - injection Hj as <-. apply Hsym. exact (proj1 (Forall_lookup _ _) Ha i x Hi).
  - apply (IH i j x y); [lia|assumption|assumption].
Qed.

Lemma place_in_groups_ok (u : ExecUnit) (gs : list (list ExecUnit)) :
  Forall group_ok gs -> Forall group_ok (place_in_groups u gs).
Proof.
  induction gs as [|g gs IH]; simpl; intros Hgs.
  - constructor; [|constructor].
    split; [repeat constructor|split; [discriminate|]].
    intros x [<-|[]] _. reflexivity.
  - inversion Hgs as [|? ? [Hpairs [Hne Hempty]] Hrest]; subst.
    destruct (forallb _ g) eqn:Hadd.
    + constructor; [|exact Hrest].
      rewrite forallb_forall in Hadd.
      assert (Hdis : forall e, In e g -> disjoint_units e u).
      { intros e He. specialize (Hadd e He). unfold disjoint_units.
        destruct (hooks_overlap _ _); [discriminate|reflexivity]. }
      split; [|split].
      * apply ForallOrdPairs_snoc; [exact Hpairs|].
        apply List.Forall_forall. exact Hdis.
      * destruct g; [congruence|discriminate].
      * intros x Hx Hxe. exfalso.
        destruct g as [|e g']; [congruence|].
        pose proof (proj1 (hooks_overlap_false_iff _ _) (Hdis e (or_introl eq_refl)))
          as (_ & He & Hu).
        apply in_app_or in Hx as [Hx|[<-|[]]]; [|contradiction].
        pose proof (proj1 (hooks_overlap_false_iff _ _) (Hdis x Hx)) as (_ & Hx' & _).
        contradiction.
    + constructor; [split; [exact Hpairs|split; assumption]|].
      apply IH, Hrest.
Qed.

Lemma group_write_hooks_ok (ws : list ExecUnit) : Forall group_ok (group_write_hooks ws).
Proof.
  unfold group_write_hooks.
  assert (Hgen : forall acc, Forall group_ok acc ->
            Forall group_ok (fold_left (fun groups u => place_in_groups u groups) ws acc)).
  { induction ws as [|u ws IH]; simpl; intros acc Hacc; [exact Hacc|].
    apply IH, place_in_groups_ok, Hacc. }
  apply Hgen. constructor.
Qed.

Lemma chunks_aux_infix {A} (fuel n : nat) (l c : list A) :
  In c (chunks_aux fuel n l) -> is_infix c l.
Proof.
  revert l. induction fuel as [|fuel IH]; simpl; intros l Hc; [contradiction|].
  destruct l as [|a l']; [contradiction|].
  destruct Hc as [<-|Hc].
  - exists [], (drop n (a :: l')). simpl. by rewrite take_drop.
  - destruct (IH _ Hc) as (k1 & k2 & Hk).
    exists (take n (a :: l') ++ k1), k2.
    rewrite <- (take_drop n (a :: l')) at 1. rewrite Hk. by rewrite <- app_assoc.
Qed.

Lemma chunks_infix {A} (n : nat) (l c : list A) : In c (chunks n l) -> is_infix c l.
Proof. apply chunks_aux_infix. Qed.

Lemma group_ok_infix (g c : list ExecUnit) :
  group_ok g -> is_infix c g ->
  ForallOrdPairs disjoint_units c /\ (forall x, In x c -> files (unit_hook x) = "" -> c = [x]).
Proof.
  intros [Hpairs [_ Hempty]] (k1 & k2 & ->). split.
  - apply ForallOrdPairs_app_inv in Hpairs as [_ H].
    apply ForallOrdPairs_app_inv in H as [H _]. exact H.
  - intros x Hx Hxe.
    assert (Hg : In x (k1 ++ c ++ k2)) by (apply in_or_app; right; apply in_or_app; left; exact Hx).
    specialize (Hempty x Hg Hxe).
    destruct k1 as [|a k1]; simpl in Hempty.
    + destruct c as [|b c]; [contradiction|].
      simpl in Hempty. injection Hempty as -> Hrest.
      apply app_eq_nil in Hrest as [-> _]. reflexivity.
    + injection Hempty as -> Hrest.
      apply app_eq_nil in Hrest as [_ Hrest]. apply app_eq_nil in Hrest as [-> _].
      contradiction.
Qed.


(** *** Dispatched batches *)

(** [m] only ever appends batches satisfying [P] to the trace. *)
Definition dispatches_only (P : list ExecUnit -> Prop) {A} (m : Sched A) : Prop :=
  forall t r t', m t = (r, t') -> exists new, t' = t ++ new /\ Forall P new.

Lemma dispatches_only_ret P {A} (a : A) : dispatches_only P (sret a).
Proof. intros t r t' [= _ <-]. exists []. by rewrite app_nil_r. Qed.

Lemma dispatches_only_lift P {A} (x : result A ParallelExecutionError) :
  dispatches_only P (slift x).
Proof. intros t r t' [= _ <-]. exists []. by rewrite app_nil_r. Qed.

Lemma dispatches_only_batch P b : P b -> dispatches_only P (run_hook_batch b).
Proof. intros Hb t r t' [= _ <-]. exists [b]. split; [reflexivity|by constructor]. Qed.

Lemma dispatches_only_bind P {A B} (m : Sched A) (k : A -> Sched B) :
  dispatches_only P m -> (forall a, dispatches_only P (k a)) ->
  dispatches_only P (sbind m k).
Proof.
  intros Hm Hk t r t'. unfold sbind.
  destruct (m t) as [[a|e] t1] eqn:Ht.
  - intros Hka. destruct (Hm _ _ _ Ht) as (n1 & -> & H1).
    destruct (Hk a _ _ _ Hka) as (n2 & -> & H2).
    exists (n1 ++ n2). rewrite app_assoc. split; [reflexivity|]. by apply Forall_app.
  - intros [= _ <-]. exact (Hm _ _ _ Ht).
Qed.

Lemma dispatches_only_batches P bs :
  Forall P bs -> dispatches_only P (run_batches bs).
Proof.
  induction 1; simpl.
  - apply dispatches_only_ret.
  - apply dispatches_only_bind; [by apply dispatches_only_batch|intros; assumption].
Qed.

Lemma dispatches_only_admitted P p set :
  (forall c, is_infix c set -> P c) -> dispatches_only P (run_admitted p set).
Proof.
  intros Hset. unfold run_admitted. destruct (Nat.ltb 0 p).
  - apply dispatches_only_batches, List.Forall_forall.
    intros c Hc. apply Hset, (chunks_infix p), Hc.
  - apply dispatches_only_batch, Hset. exists [], []. by rewrite app_nil_r.
Qed.

Lemma dispatches_only_groups P p gs :
  Forall (fun g => forall c, is_infix c g -> P c) gs -> dispatches_only P (run_groups p gs).
Proof.
  induction 1; simpl.
  - apply dispatches_only_ret.
  - apply dispatches_only_bind; [by apply dispatches_only_admitted|intros; assumption].
Qed.

Lemma infix_In {A} (c l : list A) x : is_infix c l -> In x c -> In x l.
Proof.
  intros (k1 & k2 & ->) Hx. apply in_or_app. right. apply in_or_app. left. exact Hx.
Qed.

(** Every batch [run_all_hooks] dispatches is a slice of the read pool
    or a slice of one write group. *)
Lemma run_all_hooks_dispatches_only (P : list ExecUnit -> Prop) cfg skip l :
  (forall c, Forall (fun u => is_read_unit u = true) c -> P c) ->
  (forall g c, group_ok g -> is_infix c g -> P c) ->
  dispatches_only P (run_all_hooks cfg skip l).
Proof.
  intros Hread Hwrite. unfold run_all_hooks.
  apply dispatches_only_bind; [apply dispatches_only_lift|intros units].
  apply dispatches_only_bind.
  - apply dispatches_only_admitted. intros c Hc. apply Hread, List.Forall_forall.
    intros x Hx. pose proof (infix_In _ _ _ Hc Hx) as Hin.
    apply filter_In in Hin as [_ Hin]. exact Hin.
  - intros _. destruct (List.filter _ units) as [|w ws] eqn:Hw;
      [apply dispatches_only_ret|].
    apply dispatches_only_groups.
    apply List.Forall_forall. intros g Hg c Hc.
    pose proof (group_write_hooks_ok (w :: ws)) as Hok.
    rewrite List.Forall_forall in Hok. exact (Hwrite g c (Hok g Hg) Hc).
Qed.

Lemma read_unit_not_write u :
  is_read_unit u = true -> access_mode (unit_hook u) <> ReadWrite.
Proof. unfold is_read_unit. destruct (access_mode (unit_hook u)); simpl; congruence. Qed.

(** C1: in every batch the scheduler dispatches, any two distinct
    read-write units have non-empty, different [files] patterns; this is
    because a write unit joins a group only when it overlaps no member,
    two units overlapping exactly when a pattern is empty or both are
    equal. *)
Theorem run_all_hooks_write_batches_disjoint (cfg : Config) (skip : list string)
    (l : list PathBuf) r trace :
  run_all_hooks cfg skip l [] = (r, trace) ->
  (forall h1 h2, hooks_overlap h1 h2 = true <->
                 files h1 = "" \/ files h2 = "" \/ files h1 = files h2) /\
  (forall ws g, In g (group_write_hooks ws) ->
     forall i j x y, i <> j -> g !! i = Some x -> g !! j = Some y ->
     hooks_overlap (unit_hook x) (unit_hook y) = false) /\
  (forall b, In b trace ->
     forall i j x y, i <> j -> b !! i = Some x -> b !! j = Some y ->
     access_mode (unit_hook x) = ReadWrite -> access_mode (unit_hook y) = ReadWrite ->
     files (unit_hook x) <> files (unit_hook y) /\
     files (unit_hook x) <> "" /\ files (unit_hook y) <> "").
Proof.
  intros Hrun. split; [exact hooks_overlap_true_iff|split].
  - intros ws g Hg. pose proof (group_write_hooks_ok ws) as Hok.
    rewrite List.Forall_forall in Hok. destruct (Hok g Hg) as [Hpairs _].
    apply (ForallOrdPairs_lookup _ _); [|exact Hpairs].
    intros a b Hab. unfold disjoint_units in *. by rewrite hooks_overlap_sym.
  - set (P := fun b : list ExecUnit =>
                forall i j x y, i <> j -> b !! i = Some x -> b !! j = Some y ->
                access_mode (unit_hook x) = ReadWrite ->
                access_mode (unit_hook y) = ReadWrite ->
                files (unit_hook x) <> files (unit_hook y) /\
                files (unit_hook x) <> "" /\ files (unit_hook y) <> "").
    assert (Hd : dispatches_only P (run_all_hooks cfg skip l)).
    { apply run_all_hooks_dispatches_only.
      - intros c Hc i j x y _ Hi _ Hx. exfalso.
        apply (read_unit_not_write x); [|exact Hx].
        exact (proj1 (Forall_lookup _ _) Hc i x Hi).
      - intros g c Hg Hc i j x y Hij Hi Hj _ _.
        destruct (group_ok_infix g c Hg Hc) as [Hpairs _].
        apply hooks_overlap_false_iff.
        apply (ForallOrdPairs_lookup _ _ (fun a b H => eq_trans (hooks_overlap_sym _ _) H)
                 Hpairs i j x y Hij Hi Hj). }
    destruct (Hd _ _ _ Hrun) as (new & -> & Hnew).
    intros b Hb. simpl in Hb. rewrite List.Forall_forall in Hnew. exact (Hnew b Hb).
Qed.

(** C10: a read-write unit without [files] pattern is alone in its write
    group, and alone in every batch that dispatches it. *)
Theorem run_all_hooks_empty_pattern_alone (cfg : Config) (skip : list string)
    (l : list PathBuf) r trace :
  run_all_hooks cfg skip l [] = (r, trace) ->
  (forall ws g x, In g (group_write_hooks ws) -> In x g ->
                  files (unit_hook x) = "" -> g = [x]) /\
  (forall b x, In b trace -> In x b -> access_mode (unit_hook x) = ReadWrite ->
               files (unit_hook x) = "" -> b = [x]).
Proof.
  intros Hrun. split.
  - intros ws g x Hg. pose proof (group_write_hooks_ok ws) as Hok.
    rewrite List.Forall_forall in Hok. destruct (Hok g Hg) as (_ & _ & He). apply He.
  - set (P := fun b : list ExecUnit =>
                forall x, In x b -> access_mode (unit_hook x) = ReadWrite ->
                files (unit_hook x) = "" -> b = [x]).
    assert (Hd : dispatches_only P (run_all_hooks cfg skip l)).
    { apply run_all_hooks_dispatches_only.
      - intros c Hc x Hx Hw. exfalso.
        rewrite List.Forall_forall in Hc. exact (read_unit_not_write x (Hc x Hx) Hw).
      - intros g c Hg Hc x Hx _ He.
        destruct (group_ok_infix g c Hg Hc) as [_ Hone]. exact (Hone x Hx He). }
    destruct (Hd _ _ _ Hrun) as (new & -> & Hnew).
    intros b x Hb. simpl in Hb. rewrite List.Forall_forall in Hnew. exact (Hnew b Hb x).
Qed.


(** *** Error propagation across batches *)

Definition batch_succeeds (b : list ExecUnit) : Prop :=
  join_all (completion_order b) = Ok tt.

(** [m] returns [Ok] only when every batch it dispatched succeeded, and
    otherwise returns the error of the last batch it dispatched, all
    earlier ones having succeeded. *)
Definition stops_at_first_error {A} (m : Sched A) : Prop :=
  forall t r t', m t = (r, t') -> exists new, t' = t ++ new /\
    match r with
    | Ok _ => Forall batch_succeeds new
    | Err e => exists pre b, new = pre ++ [b] /\ Forall batch_succeeds pre /\
                             join_all (completion_order b) = Err e
    end.

Lemma stops_ret {A} (a : A) : stops_at_first_error (sret a).
Proof. intros t r t' [= <- <-]. exists []. by rewrite app_nil_r. Qed.

Lemma stops_batch b : stops_at_first_error (run_hook_batch b).
Proof.
  intros t r t' [= <- <-]. exists [b]. split; [reflexivity|].
  destruct (join_all (completion_order b)) as [[]|e] eqn:Hj.
  - constructor; [exact Hj|constructor].
  - exists [], b. repeat split; [constructor|exact Hj].
Qed.

Lemma stops_bind {A B} (m : Sched A) (k : A -> Sched B) :
  stops_at_first_error m -> (forall a, stops_at_first_error (k a)) ->
  stops_at_first_error (sbind m k).
Proof.
  intros Hm Hk t r t'. unfold sbind.
  destruct (m t) as [[a|e] t1] eqn:Ht.
  - intros Hka. destruct (Hm _ _ _ Ht) as (n1 & -> & H1).
    destruct (Hk a _ _ _ Hka) as (n2 & -> & H2).
    exists (n1 ++ n2). rewrite app_assoc. split; [reflexivity|].
    destruct r as [b|e].
    + by apply Forall_app.
    + destruct H2 as (pre & b & -> & Hpre & Hb).
      exists (n1 ++ pre), b. rewrite app_assoc. repeat split; [|exact Hb].
      by apply Forall_app.
  - intros [= <- <-]. exact (Hm _ _ _ Ht).
Qed.

Lemma stops_batches bs : stops_at_first_error (run_batches bs).
Proof.
  induction bs; simpl; [apply stops_ret|].
  apply stops_bind; [apply stops_batch|intros; assumption].
Qed.

Lemma stops_admitted p set : stops_at_first_error (run_admitted p set).
Proof.
  unfold run_admitted. destruct (Nat.ltb 0 p); [apply stops_batches|apply stops_batch].
Qed.

Lemma stops_groups p gs : stops_at_first_error (run_groups p gs).
Proof.
  induction gs; simpl; [apply stops_ret|].
  apply stops_bind; [apply stops_admitted|intros; assumption].
Qed.

(** C2 (a defect of the code: [fail_fast], documented as whether to stop
    after the first failure, is never read): the result of
    [run_all_hooks] does not depend on [fail_fast].  Whatever its value,
    the run stops at the first batch that fails and returns that batch's
    error alone; the batches after it are never dispatched and no
    composite error is built. *)
Theorem run_all_hooks_stops_at_first_failing_batch (cfg : Config) (ff : bool)
    (skip : list string) (l : list PathBuf) r trace :
  run_all_hooks (mkConfig (default_stages cfg) ff (parallelism cfg) (repos cfg)) skip l []
    = run_all_hooks cfg skip l [] /\
  (run_all_hooks cfg skip l [] = (r, trace) ->
   match r with
   | Ok _ => Forall batch_succeeds trace
   | Err e =>
       (trace = [] /\ prepare_hook_contexts cfg skip l = Err e) \/
       (exists pre b, trace = pre ++ [b] /\ Forall batch_succeeds pre /\
                      join_all (completion_order b) = Err e)
   end).
Proof.
  split; [reflexivity|]. intros Hrun.
  unfold run_all_hooks, sbind at 1, slift in Hrun.
  destruct (prepare_hook_contexts cfg skip l) as [units|e] eqn:Hprep.
  - assert (Hs : stops_at_first_error
                   (sbind (run_admitted (parallelism cfg) (List.filter is_read_unit units))
                      (fun _ => match List.filter (fun u => negb (is_read_unit u)) units with
                                | [] => sret tt
                                | _ => run_groups (parallelism cfg)
                                         (group_write_hooks
                                            (List.filter (fun u => negb (is_read_unit u)) units))
                                end))).
    { apply stops_bind; [apply stops_admitted|intros _].
      destruct (List.filter (fun u => negb (is_read_unit u)) units);
        [apply stops_ret|apply stops_groups]. }
    destruct (Hs _ _ _ Hrun) as (new & -> & Hnew). simpl.
    destruct r as [u|e]; [exact Hnew|right; exact Hnew].
  - injection Hrun as <- <-. left. split; reflexivity.
Qed.


(** *** Tool cache *)

(** C4 (as the code has it): a [setup_tool] call for a hook either
    succeeds or fails.  When it succeeds its tool sits in the cache under
    [<language>-<id>]; on a miss that call ran [Tool::setup] exactly once
    and added exactly that entry, on a hit it changed nothing; a second
    call returns the same instance without touching the resolver, the
    filesystem or the setup log.  When it fails, the resolver is
    unchanged and the key is still missing from the cache: for an
    unsupported language nothing was run and every later call on a
    missing key fails the same way without running anything; for a
    failed [Tool::setup] that call ran it once, and every later call on a
    missing key runs it once more.  The Python provisioner's [setup] with
    [force = false] on an installed tool does nothing. *)
Theorem setup_tool_caches_success_retries_failure (h : Hook) (w w1 : World)
    (r : result Tool HookResolverError) :
  setup_tool h w = (r, w1) ->
  match r with
  | Ok t =>
      tool_cache (resolver w1) !! tool_key_of h = Some t /\
      (tool_cache (resolver w) !! tool_key_of h = None ->
         setup_log w1 = setup_log w ++ [tool_key_of h] /\
         tool_cache (resolver w1) = <[tool_key_of h := t]> (tool_cache (resolver w))) /\
      (tool_cache (resolver w) !! tool_key_of h = Some t -> w1 = w) /\
      setup_tool h w1 = (Ok t, w1)
  | Err e =>
      resolver w1 = resolver w /\ tool_cache (resolver w1) !! tool_key_of h = None /\
      ((create_tool h = Err e /\ w1 = w /\
        forall w2, tool_cache (resolver w2) !! tool_key_of h = None ->
                   setup_tool h w2 = (Err e, w2)) \/
       (exists tool, create_tool h = Ok tool /\
        setup_log w1 = setup_log w ++ [tool_key_of h] /\
        forall w2, tool_cache (resolver w2) !! tool_key_of h = None ->
                   setup_log (snd (setup_tool h w2)) = setup_log w2 ++ [tool_key_of h]))
  end /\
  (forall (pt : PythonTool) (ctx : SetupContext) (fsys : FS),
     force ctx = false -> python_is_installed pt fsys = true ->
     python_setup pt ctx fsys = (Ok tt, fsys)).
Proof.
  intros Hset. split.
  2:{ intros pt ctx fsys Hf Hi. unfold python_setup. by rewrite Hi, Hf. }
  assert (Hhit : forall t w', tool_cache (resolver w') !! tool_key_of h = Some t ->
                              setup_tool h w' = (Ok t, w')).
  { intros t w' Hw'. unfold setup_tool. by rewrite Hw'. }
  unfold setup_tool in Hset.
  destruct (tool_cache (resolver w) !! tool_key_of h) as [t0|] eqn:Hc.
  - injection Hset as <- <-.
    repeat split; try done; try (intros; congruence); apply Hhit, Hc.
  - destruct (create_tool h) as [tool|e] eqn:Hct.
    + destruct (tool_setup tool _ (filesystem w)) as [[[]|e] fs'] eqn:Hs.
      * injection Hset as <- <-. simpl.
        assert (Hlk : <[tool_key_of h := tool]> (tool_cache (resolver w)) !! tool_key_of h
                      = Some tool) by apply lookup_insert_eq.
        repeat split; try done.
        apply (Hhit tool). exact Hlk.
      * injection Hset as <- <-. simpl.
        split; [reflexivity|split; [exact Hc|right]].
        exists tool. split; [reflexivity|split; [reflexivity|]].
        intros w2 Hw2. unfold setup_tool. rewrite Hw2, Hct.
        destruct (tool_setup tool _ (filesystem w2)) as [[u|e2] fs2]; reflexivity.
    + injection Hset as <- <-.
      split; [reflexivity|split; [exact Hc|left]].
      split; [reflexivity|split; [reflexivity|]].
      intros w2 Hw2. unfold setup_tool. by rewrite Hw2, Hct.
Qed.

(** *** Cache entries *)

(** C8: after [set k v] succeeds at time [t0], [get k] at a time [t1]
    returns [v] while [t1 - t0 < max_age] and nothing once
    [t1 - t0 > max_age]; [is_valid k] holds exactly when the key's file
    exists and its modification time lies within [max_age] of now.  The
    round trip relies on the serializer reading back what it wrote. *)
Theorem cache_set_then_get (cm : CacheManager) (key : string) (v : V)
    (cfs cfs' : gmap string Node) (t0 t1 : N) :
  (forall s, serialize v = Ok s -> deserialize s = Ok v) ->
  set cm key v cfs t0 = (Ok tt, cfs') ->
  (t0 <= t1)%N ->
  ((t1 - t0 < max_age cm)%N -> get cm key cfs' t1 = Ok (Some v)) /\
  ((max_age cm < t1 - t0)%N -> get cm key cfs' t1 = Ok None) /\
  (forall (fsx : gmap string Node) (now : N),
     is_valid cm key fsx now = true <->
     exists n, fsx !! path_join (cm_cache_dir cm) key = Some n /\
               (node_mtime n <= now)%N /\ (now - node_mtime n < max_age cm)%N).
Proof.
  intros Hrt Hset Ht.
  assert (Hvalid : forall (fsx : gmap string Node) (now : N),
     is_valid cm key fsx now = true <->
     exists n, fsx !! path_join (cm_cache_dir cm) key = Some n /\
               (node_mtime n <= now)%N /\ (now - node_mtime n < max_age cm)%N).
  { intros fsx now. unfold is_valid, elapsed.
    destruct (fsx !! path_join (cm_cache_dir cm) key) as [n|].
    - destruct (N.leb_spec (node_mtime n) now) as [Hle|Hgt].
      + rewrite N.ltb_lt. split.
        * intros H. exists n. auto.
        * intros (n' & [= <-] & _ & H). exact H.
      + split; [discriminate|]. intros (n' & [= <-] & H & _). lia.
    - split; [discriminate|]. intros (n' & H & _). discriminate. }
  unfold set in Hset.
  set (path := path_join (cm_cache_dir cm) key) in *.
  destruct (create_dir_all (path_parent path) cfs t0) as [cfs1|k]; [|discriminate].
  destruct (serialize v) as [data|] eqn:Hser; [|discriminate].
  unfold write_file in Hset.
  destruct (cfs1 !! path) as [[| |]|] eqn:Hp; try discriminate;
    injection Hset as <-;
    assert (Hlk : <[path := NFile data t0]> cfs1 !! path = Some (NFile data t0))
      by apply lookup_insert_eq;
    (split; [|split; [|exact Hvalid]]);
    intros Hage; unfold get, is_valid, elapsed; fold path; rewrite Hlk; simpl;
    (destruct (N.leb_spec t0 t1) as [_|]; [|lia]).
  all: try (rewrite (proj2 (N.ltb_lt _ _) Hage); simpl; rewrite (Hrt data eq_refl); reflexivity).
  all: rewrite (proj2 (N.ltb_ge _ _)); [reflexivity|lia].
Qed.

(** ** Further properties *)

(** *** Preparation of the execution units ([prepare_hook_contexts]) *)

Lemma list_filter_sublist {A} (f : A -> bool) (l : list A) : List.filter f l `sublist_of` l.
Proof.
  induction l as [|x l IH]; simpl; [constructor|].
  destruct (f x); [apply sublist_skip|apply sublist_cons]; exact IH.
Qed.

Lemma prepare_repo_hooks_Forall (Q : ExecUnit -> Prop) rid skip hs l us :
  (forall h, In h hs -> existsb (String.eqb (id h)) skip = false ->
     (files h = "" -> l <> [] -> Q (rid, id h, h, l)) /\
     (forall rx, files h <> "" -> Regex_new (files h) = Some rx ->
        List.filter (fun p => regex_is_match rx (to_string_lossy p)) l <> [] ->
        Q (rid, id h, h, List.filter (fun p => regex_is_match rx (to_string_lossy p)) l))) ->
  prepare_repo_hooks rid skip hs l = Ok us -> Forall Q us.
Proof.
  revert us. induction hs as [|h hs IH]; intros us HQ Hp; simpl in Hp.
  - injection Hp as <-. constructor.
  - assert (IH' : forall us', prepare_repo_hooks rid skip hs l = Ok us' -> Forall Q us')
      by (intros us' Hus'; apply IH; [intros h' Hh'; apply HQ; right; exact Hh'|exact Hus']).
    destruct (existsb (String.eqb (id h)) skip) eqn:Hsk; simpl in Hp; [exact (IH' _ Hp)|].
    destruct (HQ h (or_introl eq_refl) Hsk) as [Hempty Hpat].
    destruct (String.eqb_spec (files h) "") as [He|Hne]; simpl in Hp.
    + destruct (prepare_repo_hooks rid skip hs l) as [rest|e]; [|discriminate].
      specialize (IH' rest eq_refl).
      destruct l as [|x l']; [injection Hp as <-; exact IH'|].
      injection Hp as <-. constructor; [apply Hempty; [exact He|discriminate]|exact IH'].
    + unfold from_regex in Hp.
      destruct (Regex_new (files h)) as [rx|] eqn:Hrx; simpl in Hp; [|discriminate].
      destruct (prepare_repo_hooks rid skip hs l) as [rest|e]; [|discriminate].
      specialize (IH' rest eq_refl).
      unfold filter_files, matches in Hp.
      destruct (List.filter (fun p => regex_is_match rx (to_string_lossy p)) l) as [|y ys] eqn:Hf;
        [injection Hp as <-; exact IH'|].
      injection Hp as <-. constructor; [|exact IH'].
      rewrite <- Hf. apply Hpat; [exact Hne|reflexivity|rewrite Hf; discriminate].
Qed.

Lemma prepare_repos_Forall (Q : ExecUnit -> Prop) skip rs l us :
  (forall r, In r rs -> forall u, prepare_repo_hooks (repo r) skip (hooks r) l = Ok u -> Forall Q u) ->
  prepare_repos skip rs l = Ok us -> Forall Q us.
Proof.
  revert us. induction rs as [|r rs IH]; intros us HQ Hp; simpl in Hp.
  - injection Hp as <-. constructor.
  - destruct (prepare_repo_hooks (repo r) skip (hooks r) l) as [u|e] eqn:Hr; [|discriminate].
    destruct (prepare_repos skip rs l) as [rest|e] eqn:Hrest; [|discriminate].
    injection Hp as <-. apply Forall_app. split.
    + exact (HQ r (or_introl eq_refl) u Hr).
    + apply IH; [intros r' Hr'; apply HQ; right; exact Hr'|reflexivity].
Qed.

Lemma prepare_units_spec (cfg : Config) (skip : list string) (l : list PathBuf)
    (us : list ExecUnit) :
  prepare_hook_contexts cfg skip l = Ok us ->
  Forall (fun u : ExecUnit => let '(rid, hid, h, fs) := u in
    (exists r, In r (repos cfg) /\ repo r = rid /\ In h (hooks r)) /\ hid = id h /\
    existsb (String.eqb (id h)) skip = false /\ fs <> [] /\ fs `sublist_of` l /\
    (files h = "" -> fs = l) /\
    (files h <> "" -> exists rx, Regex_new (files h) = Some rx /\
       fs = List.filter (fun p => regex_is_match rx (to_string_lossy p)) l)) us.
Proof.
  unfold prepare_hook_contexts. apply prepare_repos_Forall.
  intros r Hr u. apply prepare_repo_hooks_Forall.
  intros h Hh Hsk. split.
  - intros He Hne. split; [exists r; auto|].
    split; [reflexivity|split; [exact Hsk|split; [exact Hne|split; [reflexivity|split]]]].
    + intros _. reflexivity.
    + intros Hne'. contradiction.
  - intros rx Hne Hrx Hf. split; [exists r; auto|].
    split; [reflexivity|split; [exact Hsk|split; [exact Hf|split; [|split]]]].
    + apply list_filter_sublist.
    + intros He. contradiction.
    + intros _. exists rx. split; [exact Hrx|reflexivity].
Qed.

(** Every execution unit [prepare_hook_contexts] returns belongs to a hook
    of the configuration that is not skipped, carries that hook's id and
    its repository's name, and holds a non-empty list of files: the whole
    input for a hook without pattern, otherwise the input paths its regex
    matches, in input order. *)
Theorem prepare_hook_contexts_units (cfg : Config) (skip : list string) (l : list PathBuf)
    (us : list ExecUnit) :
  prepare_hook_contexts cfg skip l = Ok us ->
  Forall (fun u : ExecUnit => let '(rid, hid, h, fs) := u in
    (exists r, In r (repos cfg) /\ repo r = rid /\ In h (hooks r)) /\ hid = id h /\
    existsb (String.eqb (id h)) skip = false /\ fs <> [] /\ fs `sublist_of` l /\
    (files h = "" -> fs = l) /\
    (files h <> "" -> exists rx, Regex_new (files h) = Some rx /\
       fs = List.filter (fun p => regex_is_match rx (to_string_lossy p)) l)) us.
Proof. apply prepare_units_spec. Qed.

Lemma find_unique {A} (f : A -> string) (xs : list A) (x : A) :
  NoDup (map f xs) -> In x xs -> List.find (fun y => String.eqb (f y) (f x)) xs = Some x.
Proof.
  induction xs as [|y xs IH]; intros Hnd Hin; [destruct Hin|].
  simpl in Hnd. apply NoDup_cons in Hnd as [Hy Hnd]. simpl.
  destruct Hin as [->|Hin]; [by rewrite String.eqb_refl|].
  destruct (String.eqb_spec (f y) (f x)) as [Heq|]; [|exact (IH Hnd Hin)].
  exfalso. apply Hy. rewrite Heq. apply list_elem_of_In, in_map. exact Hin.
Qed.

(** C9 (as the code has it): filtering with a compiled matcher is
    idempotent.  When the repository names are distinct and the hook ids
    within each repository are distinct, every unit [(repo, id, hook,
    files)] that [prepare_hook_contexts] returns is resolved by
    [run_hook]'s lookup of [(repo, id)] to that same hook, and the
    context [run_hook] builds from [files] carries exactly [files]: the
    second filtering delivers the list the first one produced. *)
Theorem filter_files_idempotent_run_hook_agrees (cfg : Config) (skip : list string)
    (l : list PathBuf) (us : list ExecUnit) :
  (forall (m : FileMatcher) (l' : list PathBuf), filter_files m (filter_files m l') = filter_files m l') /\
  (prepare_hook_contexts cfg skip l = Ok us ->
   NoDup (map repo (repos cfg)) ->
   Forall (fun r => NoDup (map id (hooks r))) (repos cfg) ->
   Forall (fun u : ExecUnit => let '(rid, hid, h, fs) := u in
     resolve_hook cfg rid hid = Ok h /\
     forall wd, current_dir = Ok wd -> create_context h fs = Ok (from_hook h wd fs)) us).
Proof.
  split; [exact filter_files_idempotent|].
  intros Hp Hnr Hnh. pose proof (prepare_units_spec _ _ _ _ Hp) as Hus.
  eapply Forall_impl; [exact Hus|]. intros [[[rid hid] h] fs].
  intros ((r & Hr & <- & Hh) & -> & _ & _ & _ & Hempty & Hpat). split.
  - unfold resolve_hook. rewrite (find_unique repo _ _ Hnr Hr).
    rewrite List.Forall_forall in Hnh. by rewrite (find_unique id _ _ (Hnh r Hr) Hh).
  - intros wd Hwd. unfold create_context. rewrite Hwd.
    destruct (String.eqb_spec (files h) "") as [He|Hne]; simpl; [reflexivity|].
    destruct (Hpat Hne) as (rx & Hrx & ->). unfold from_regex. rewrite Hrx.
    exact (f_equal (fun x => Ok (from_hook h wd x))
             (filter_files_idempotent (FMRegex rx) l)).
Qed.


(** Preparation fails only on a hook that is not skipped and whose
    non-empty pattern does not compile, and then with the regex error;
    when every such pattern compiles it succeeds.  A bad pattern in a
    skipped hook is never compiled. *)
Theorem prepare_hook_contexts_error (cfg : Config) (skip : list string) (l : list PathBuf) :
  (forall e, prepare_hook_contexts cfg skip l = Err e ->
     e = PHookResolverError (RFileMatcherError RegexError) /\
     exists r h, In r (repos cfg) /\ In h (hooks r) /\ existsb (String.eqb (id h)) skip = false /\
                 files h <> "" /\ Regex_new (files h) = None) /\
  ((forall r h, In r (repos cfg) -> In h (hooks r) -> existsb (String.eqb (id h)) skip = false ->
                files h <> "" -> Regex_new (files h) <> None) ->
   exists us, prepare_hook_contexts cfg skip l = Ok us).
Proof.
  unfold prepare_hook_contexts.
  assert (Hrepo : forall rid hs,
    (forall e, prepare_repo_hooks rid skip hs l = Err e ->
       e = PHookResolverError (RFileMatcherError RegexError) /\
       exists h, In h hs /\ existsb (String.eqb (id h)) skip = false /\
                 files h <> "" /\ Regex_new (files h) = None) /\
    ((forall h, In h hs -> existsb (String.eqb (id h)) skip = false ->
                files h <> "" -> Regex_new (files h) <> None) ->
     exists us, prepare_repo_hooks rid skip hs l = Ok us)).
  { intros rid hs. induction hs as [|h hs [IHe IHo]]; simpl.
    - split; [discriminate|]. intros _. eexists. reflexivity.
    - destruct (existsb (String.eqb (id h)) skip) eqn:Hsk; simpl.
      + split.
        * intros e He. destruct (IHe e He) as [-> (h' & Hh' & Hrest)].
          split; [reflexivity|]. exists h'. split; [right; exact Hh'|exact Hrest].
        * intros Hall. apply IHo. intros h' Hh'. apply Hall. right. exact Hh'.
      + destruct (String.eqb_spec (files h) "") as [Hem|Hne]; simpl; unfold from_regex.
        * split.
          -- intros e He. destruct (prepare_repo_hooks rid skip hs l) as [rest|e'] eqn:Hp.
             ++ destruct l; discriminate.
             ++ injection He as <-. destruct (IHe e' eq_refl) as [-> (h' & Hh' & Hrest)].
                split; [reflexivity|]. exists h'. split; [right; exact Hh'|exact Hrest].
          -- intros Hall. destruct IHo as [rest Hrest];
               [intros h' Hh'; apply Hall; right; exact Hh'|].
             rewrite Hrest. destruct l; eexists; reflexivity.
        * destruct (Regex_new (files h)) as [rx|] eqn:Hrx; simpl.
          -- split.
             ++ intros e He. destruct (prepare_repo_hooks rid skip hs l) as [rest|e'] eqn:Hp.
                ** destruct (filter_files (FMRegex rx) l); discriminate.
                ** injection He as <-. destruct (IHe e' eq_refl) as [-> (h' & Hh' & Hrest)].
                   split; [reflexivity|]. exists h'. split; [right; exact Hh'|exact Hrest].
             ++ intros Hall. destruct IHo as [rest Hrest];
                  [intros h' Hh'; apply Hall; right; exact Hh'|].
                rewrite Hrest. destruct (filter_files (FMRegex rx) l); eexists; reflexivity.
          -- split.
             ++ intros e [= <-]. split; [reflexivity|].
                exists h. split; [left; reflexivity|split; [exact Hsk|split; [exact Hne|exact Hrx]]].
             ++ intros Hall. exfalso. exact (Hall h (or_introl eq_refl) Hsk Hne Hrx). }
  induction (repos cfg) as [|r rs [IHe IHo]]; simpl.
  - split; [discriminate|]. intros _. eexists. reflexivity.
  - destruct (Hrepo (repo r) (hooks r)) as [He Ho]. split.
    + intros e Hp. destruct (prepare_repo_hooks (repo r) skip (hooks r) l) as [u|e'] eqn:Hr.
      * destruct (prepare_repos skip rs l) as [rest|e''] eqn:Hrs; [discriminate|].
        injection Hp as <-. destruct (IHe e'' eq_refl) as [-> (r' & h' & Hr' & Hrest)].
        split; [reflexivity|]. exists r', h'. split; [right; exact Hr'|exact Hrest].
      * injection Hp as <-. destruct (He e' eq_refl) as [-> (h' & Hh' & Hrest)].
        split; [reflexivity|]. exists r, h'. split; [left; reflexivity|split; [exact Hh'|exact Hrest]].
    + intros Hall. destruct Ho as [u Hu].
      { intros h Hh. apply (Hall r h); [left; reflexivity|exact Hh]. }
      destruct IHo as [rest Hrest].
      { intros r' h Hr'. apply Hall. right. exact Hr'. }
      rewrite Hu, Hrest. eexists. reflexivity.
Qed.

(** *** Dispatch of the execution units ([run_all_hooks]) *)

Lemma chunks_aux_concat {A} (fuel n : nat) (l : list A) :
  0 < n -> List.length l <= fuel -> List.concat (chunks_aux fuel n l) = l.
Proof.
  intros Hn. revert l. induction fuel as [|fuel IH]; intros l Hl; simpl.
  - destruct l; simpl in *; [reflexivity|lia].
  - destruct l as [|x l']; [reflexivity|].
    simpl List.concat. rewrite IH; [apply take_drop|].
    rewrite length_drop. simpl in *. lia.
Qed.

Lemma chunks_concat {A} (n : nat) (l : list A) : 0 < n -> List.concat (chunks n l) = l.
Proof. intros Hn. apply chunks_aux_concat; [exact Hn|lia]. Qed.

Lemma chunks_aux_bounded {A} (fuel n : nat) (l c : list A) :
  0 < n -> In c (chunks_aux fuel n l) -> c <> [] /\ List.length c <= n.
Proof.
  intros Hn. revert l. induction fuel as [|fuel IH]; intros l Hc; simpl in Hc; [contradiction|].
  destruct l as [|x l']; [contradiction|].
  destruct Hc as [<-|Hc]; [|exact (IH _ Hc)].
  split.
  - destruct n; [lia|]. discriminate.
  - rewrite length_take. lia.
Qed.

Lemma run_batches_ok bs t t' :
  run_batches bs t = (Ok tt, t') -> t' = t ++ bs.
Proof.
  revert t. induction bs as [|b bs IH]; intros t H; simpl in H.
  - injection H as <-. by rewrite app_nil_r.
  - unfold sbind, run_hook_batch in H.
    destruct (join_all (completion_order b)); [|discriminate].
    rewrite (IH _ H). by rewrite <- app_assoc.
Qed.

Lemma run_admitted_ok p set t t' :
  run_admitted p set t = (Ok tt, t') -> exists new, t' = t ++ new /\ List.concat new = set.
Proof.
  unfold run_admitted. destruct (Nat.ltb_spec 0 p) as [Hp|Hp]; intros H.
  - exists (chunks p set). split; [exact (run_batches_ok _ _ _ H)|exact (chunks_concat _ _ Hp)].
  - unfold run_hook_batch in H. destruct (join_all (completion_order set)); [|discriminate].
    injection H as _ <-. exists [set]. simpl. by rewrite app_nil_r.
Qed.

Lemma run_groups_ok p gs t t' :
  run_groups p gs t = (Ok tt, t') -> exists new, t' = t ++ new /\ List.concat new = List.concat gs.
Proof.
  revert t. induction gs as [|g gs IH]; intros t H; simpl in H.
  - injection H as <-. exists []. by rewrite app_nil_r.
  - unfold sbind in H. destruct (run_admitted p g t) as [[[]|e] t1] eqn:Ha; [|discriminate].
    destruct (run_admitted_ok _ _ _ _ Ha) as (n1 & -> & Hn1).
    destruct (IH _ H) as (n2 & -> & Hn2).
    exists (n1 ++ n2). rewrite <- app_assoc. split; [reflexivity|].
    rewrite List.concat_app, Hn1, Hn2. reflexivity.
Qed.

Lemma place_in_groups_perm u gs : List.concat (place_in_groups u gs) ≡ₚ u :: List.concat gs.
Proof.
  induction gs as [|g gs IH]; simpl; [reflexivity|].
  destruct (forallb _ g).
  - simpl. rewrite <- app_assoc. simpl. symmetry. apply Permutation_middle.
  - simpl. rewrite IH. symmetry. apply Permutation_middle.
Qed.

Lemma group_write_hooks_perm_aux ws acc :
  List.concat (fold_left (fun groups u => place_in_groups u groups) ws acc) ≡ₚ List.concat acc ++ ws.
Proof.
  revert acc. induction ws as [|w ws IH]; intros acc; simpl.
  - by rewrite app_nil_r.
  - rewrite IH, place_in_groups_perm. simpl. apply Permutation_middle.
Qed.

Lemma group_write_hooks_perm ws : List.concat (group_write_hooks ws) ≡ₚ ws.
Proof. unfold group_write_hooks. by rewrite group_write_hooks_perm_aux. Qed.

Lemma filter_partition_perm {A} (f : A -> bool) (l : list A) :
  List.filter f l ++ List.filter (fun x => negb (f x)) l ≡ₚ l.
Proof.
  induction l as [|x l IH]; simpl; [reflexivity|].
  destruct (f x); simpl.
  - by rewrite IH.
  - rewrite <- Permutation_middle. by rewrite IH.
Qed.

(** A run that succeeds dispatches every prepared unit exactly once: the
    read pool first, in the order of preparation, then the read-write
    units, reordered by the grouping; nothing else is dispatched. *)
Theorem run_all_hooks_dispatches_each_unit_once (cfg : Config) (skip : list string)
    (l : list PathBuf) (t t' : list (list ExecUnit)) :
  run_all_hooks cfg skip l t = (Ok tt, t') ->
  exists us rb wb, prepare_hook_contexts cfg skip l = Ok us /\ t' = t ++ rb ++ wb /\
    List.concat rb = List.filter is_read_unit us /\
    List.concat wb ≡ₚ List.filter (fun u => negb (is_read_unit u)) us /\
    List.concat (rb ++ wb) ≡ₚ us.
Proof.
  unfold run_all_hooks, sbind, slift. intros H.
  destruct (prepare_hook_contexts cfg skip l) as [us|e]; [|discriminate].
  destruct (run_admitted (parallelism cfg) (List.filter is_read_unit us) t)
    as [[[]|e] t1] eqn:Ha; [|discriminate].
  destruct (run_admitted_ok _ _ _ _ Ha) as (rb & -> & Hrb).
  assert (Hw : exists wb, t' = (t ++ rb) ++ wb /\
                 List.concat wb ≡ₚ List.filter (fun u => negb (is_read_unit u)) us).
  { destruct (List.filter (fun u => negb (is_read_unit u)) us) as [|w ws] eqn:Hws.
    - injection H as <-. exists []. split; [by rewrite app_nil_r|reflexivity].
    - destruct (run_groups_ok _ _ _ _ H) as (wb & -> & Hwb).
      exists wb. split; [reflexivity|]. rewrite Hwb. apply group_write_hooks_perm. }
  destruct Hw as (wb & -> & Hwb).
  exists us, rb, wb. split; [reflexivity|]. split; [by rewrite app_assoc|].
  split; [exact Hrb|]. split; [exact Hwb|].
  rewrite List.concat_app, Hrb, Hwb. apply filter_partition_perm.
Qed.

Lemma dispatches_only_admitted_pos p set :
  0 < p -> dispatches_only (fun b => b <> [] /\ List.length b <= p) (run_admitted p set).
Proof.
  intros Hp. unfold run_admitted. destruct (Nat.ltb_spec 0 p) as [_|Hp']; [|lia].
  apply dispatches_only_batches, List.Forall_forall. intros c Hc.
  exact (chunks_aux_bounded _ _ _ _ Hp Hc).
Qed.

(** With a positive [parallelism] every batch the scheduler dispatches,
    whether the run succeeds or fails, is non-empty and holds at most
    [parallelism] units. *)
Theorem run_all_hooks_batch_size (cfg : Config) (skip : list string) (l : list PathBuf)
    (t t' : list (list ExecUnit)) (r : result unit ParallelExecutionError) :
  0 < parallelism cfg ->
  run_all_hooks cfg skip l t = (r, t') ->
  exists new, t' = t ++ new /\
    Forall (fun b => b <> [] /\ List.length b <= parallelism cfg) new.
Proof.
  intros Hp. revert t r t'.
  change (dispatches_only (fun b => b <> [] /\ List.length b <= parallelism cfg)
            (run_all_hooks cfg skip l)).
  unfold run_all_hooks.
  apply dispatches_only_bind; [apply dispatches_only_lift|intros us].
  apply dispatches_only_bind; [by apply dispatches_only_admitted_pos|intros _].
  destruct (List.filter _ us); [apply dispatches_only_ret|].
  generalize (group_write_hooks (e :: l0)) as gs. intros gs.
  induction gs as [|g gs IH]; simpl; [apply dispatches_only_ret|].
  apply dispatches_only_bind; [by apply dispatches_only_admitted_pos|intros _; exact IH].
Qed.

(** *** The hook resolver ([src/runner/hook_resolver.rs]) *)

Lemma resolve_hook_found cfg rid hid h :
  resolve_hook cfg rid hid = Ok h ->
  id h = hid /\ exists r, In r (repos cfg) /\ repo r = rid /\ In h (hooks r).
Proof.
  unfold resolve_hook.
  destruct (List.find (fun r => String.eqb (repo r) rid) (repos cfg)) as [r|] eqn:Hr;
    [|discriminate].
  apply List.find_some in Hr as [Hr Hrid]. apply String.eqb_eq in Hrid.
  destruct (List.find (fun h => String.eqb (id h) hid) (hooks r)) as [h'|] eqn:Hh;
    [|discriminate].
  apply List.find_some in Hh as [Hh Hhid]. apply String.eqb_eq in Hhid.
  intros [= <-]. split; [exact Hhid|]. exists r. auto.
Qed.

(** A resolved hook carries the requested id and is a hook of a
    repository of the configuration with the requested name; resolution
    fails only with [HookNotFound]. *)
Theorem resolve_hook_sound (cfg : Config) (rid hid : string) :
  (forall h, resolve_hook cfg rid hid = Ok h ->
     id h = hid /\ exists r, In r (repos cfg) /\ repo r = rid /\ In h (hooks r)) /\
  (forall e, resolve_hook cfg rid hid = Err e -> exists msg, e = HookNotFound msg).
Proof.
  split; [exact (resolve_hook_found cfg rid hid)|].
  intros e. unfold resolve_hook.
  destruct (List.find _ (repos cfg)) as [r|].
  - destruct (List.find _ (hooks r)); [discriminate|]. intros [= <-]. eexists. reflexivity.
  - intros [= <-]. eexists. reflexivity.
Qed.

(** Only the first repository with a given name is searched: when it has
    no hook with the requested id, resolution fails even if a later
    repository of the same name has one. *)
Theorem resolve_hook_first_repo_shadows (cfg : Config) (rid hid : string)
    (pre : list Repo) (r : Repo) (post : list Repo) :
  repos cfg = pre ++ r :: post ->
  Forall (fun r' => repo r' <> rid) pre ->
  repo r = rid ->
  Forall (fun h => id h <> hid) (hooks r) ->
  resolve_hook cfg rid hid = Err (HookNotFound ("Hook " ++ hid ++ " not found in repository " ++ rid)).
Proof.
  intros Hcfg Hpre Hr Hh. unfold resolve_hook. rewrite Hcfg. clear Hcfg.
  assert (Hf : List.find (fun r0 => String.eqb (repo r0) rid) (pre ++ r :: post) = Some r).
  { induction Hpre as [|r' pre Hr' _ IH]; simpl.
    - rewrite Hr, String.eqb_refl. reflexivity.
    - destruct (String.eqb_spec (repo r') rid); [contradiction|exact IH]. }
  rewrite Hf.
  assert (Hn : List.find (fun h => String.eqb (id h) hid) (hooks r) = None).
  { induction Hh as [|h hs Hh _ IH]; simpl; [reflexivity|].
    destruct (String.eqb_spec (id h) hid); [contradiction|exact IH]. }
  rewrite Hn. reflexivity.
Qed.

(** [create_tool] succeeds exactly for the languages python, node,
    javascript, typescript, ruby and system, and then builds the
    provisioner of that language, named after the hook id and with the
    hook's version (["latest"] by default): a Python or Node.js tool with
    a single package (Node.js with dev dependencies and npm), a Ruby tool
    with the entry's first word as its single gem, or a system tool whose
    command is the whole entry; any other language is reported as
    unsupported. *)
Theorem create_tool_languages (h : Hook) :
  ((exists t, create_tool h = Ok t) <->
   In (language h) ["python"; "node"; "javascript"; "typescript"; "ruby"; "system"]) /\
  (forall t, create_tool h = Ok t ->
     tool_name t = id h /\ tool_version t = unwrap_or (version h) "latest" /\
     match t with
     | PythonT _ _ ps => language h = "python" /\ List.length ps = 1%nat
     | NodeT _ _ ps dev pm =>
         In (language h) ["node"; "javascript"; "typescript"] /\ List.length ps = 1%nat /\
         dev = true /\ pm = "npm"
     | RubyT _ _ gems => language h = "ruby" /\ gems = [package_name_of h]
     | SystemT _ _ command => language h = "system" /\ command = entry h
     end) /\
  (forall e, create_tool h = Err e -> e = UnsupportedLanguage (language h)).
Proof.
  unfold create_tool.
  destruct (String.eqb_spec (language h) "python") as [E|N1]; simpl.
  { split; [split; [intros _; rewrite E; simpl; auto|intros _; eexists; reflexivity]|].
    split; [intros t [= <-]; repeat split; exact E|discriminate]. }
  destruct (String.eqb_spec (language h) "node") as [E|N2]; simpl.
  { split; [split; [intros _; rewrite E; simpl; auto|intros _; eexists; reflexivity]|].
    split; [intros t [= <-]; repeat split; rewrite E; simpl; auto|discriminate]. }
  destruct (String.eqb_spec (language h) "javascript") as [E|N3]; simpl.
  { split; [split; [intros _; rewrite E; simpl; auto|intros _; eexists; reflexivity]|].
    split; [intros t [= <-]; repeat split; rewrite E; simpl; auto|discriminate]. }
  destruct (String.eqb_spec (language h) "typescript") as [E|N4]; simpl.
  { split; [split; [intros _; rewrite E; simpl; auto 6|intros _; eexists; reflexivity]|].
    split; [intros t [= <-]; repeat split; rewrite E; simpl; auto|discriminate]. }
  destruct (String.eqb_spec (language h) "ruby") as [E|N5]; simpl.
  { split; [split; [intros _; rewrite E; simpl; auto 7|intros _; eexists; reflexivity]|].
    split; [intros t [= <-]; repeat split; exact E|discriminate]. }
  destruct (String.eqb_spec (language h) "system") as [E|N6]; simpl.
  { split; [split; [intros _; rewrite E; simpl; auto 8|intros _; eexists; reflexivity]|].
    split; [intros t [= <-]; repeat split; exact E|discriminate]. }
  split; [split|split; [discriminate|intros e [= <-]; reflexivity]].
  - intros [t Ht]; discriminate.
  - intros [H|[H|[H|[H|[H|[H|[]]]]]]]; symmetry in H; contradiction.
Qed.

Lemma resolver_frame_refl r : resolver_frame r r.
Proof. unfold resolver_frame. repeat split. reflexivity. Qed.

Lemma resolver_frame_trans r1 r2 r3 :
  resolver_frame r1 r2 -> resolver_frame r2 r3 -> resolver_frame r1 r3.
Proof.
  intros (H1 & H2 & H3 & H4) (G1 & G2 & G3 & G4).
  repeat split; [congruence|congruence|congruence|etrans; eassumption].
Qed.

Lemma setup_tool_frame h w res w' :
  setup_tool h w = (res, w') ->
  resolver_frame (resolver w) (resolver w') /\
  ((setup_log w' = setup_log w /\ resolver w' = resolver w) \/
   (setup_log w' = setup_log w ++ [tool_key_of h] /\
    tool_cache (resolver w) !! tool_key_of h = None /\
    forall t, res = Ok t -> tool_cache (resolver w') !! tool_key_of h = Some t)).
Proof.
  unfold setup_tool.
  destruct (tool_cache (resolver w) !! tool_key_of h) as [t|] eqn:Hc.
  { intros [= _ <-]. split; [apply resolver_frame_refl|left; auto]. }
  destruct (create_tool h) as [tool|e].
  2:{ intros [= _ <-]. split; [apply resolver_frame_refl|left; auto]. }
  destruct (tool_setup tool _ (filesystem w)) as [[u|e] fs'].
  - intros [= <- <-]. simpl. split.
    + unfold resolver_frame, insert_tool. simpl. repeat split. by apply insert_subseteq.
    + right. split; [reflexivity|split; [reflexivity|]]. intros t [= <-].
      unfold insert_tool. simpl. by rewrite lookup_insert_eq.
  - intros [= <- <-]. simpl. split; [apply resolver_frame_refl|].
    right. split; [reflexivity|split; [reflexivity|discriminate]].
Qed.

Lemma run_hook_step rid hid fs w r w' :
  run_hook rid hid fs w = (r, w') ->
  resolver_frame (resolver w) (resolver w') /\
  (setup_log w' = setup_log w \/
   exists h, resolve_hook (config (resolver w)) rid hid = Ok h /\
     setup_log w' = setup_log w ++ [tool_key_of h] /\
     tool_cache (resolver w) !! tool_key_of h = None /\
     (r = Ok tt -> is_Some (tool_cache (resolver w') !! tool_key_of h))).
Proof.
  unfold run_hook.
  destruct (resolve_hook (config (resolver w)) rid hid) as [h|e] eqn:Hr.
  2:{ intros [= _ <-]. split; [apply resolver_frame_refl|left; reflexivity]. }
  destruct (create_context h fs) as [c|e].
  2:{ intros [= _ <-]. split; [apply resolver_frame_refl|left; reflexivity]. }
  destruct (bool_decide (files_to_process c = [])).
  { intros [= _ <-]. split; [apply resolver_frame_refl|left; reflexivity]. }
  destruct (should_run_in_separate_process c).
  { intros [= _ <-]. split; [apply resolver_frame_refl|left; reflexivity]. }
  destruct (setup_tool h w) as [[t|e] w1] eqn:Hs;
    destruct (setup_tool_frame _ _ _ _ Hs) as [Hfr [[Hl _]|(Hl & Hc & Ht)]];
    intros [= <- <-]; (split; [exact Hfr|]).
  - left. exact Hl.
  - right. exists h. split; [reflexivity|split; [exact Hl|split; [exact Hc|]]].
    intros _. rewrite (Ht t eq_refl). eexists. reflexivity.
  - left. exact Hl.
  - right. exists h. split; [reflexivity|split; [exact Hl|split; [exact Hc|discriminate]]].
Qed.

(** One [run_hook] call leaves the configuration, the cache directory
    and the skip list alone and never evicts or replaces a cached tool;
    it sets up at most one tool, the one of the resolved hook, and only
    when that tool was not cached yet. *)
Theorem run_hook_world_frame (rid hid : string) (fs : list PathBuf) (w w' : World)
    (r : result unit HookResolverError) :
  run_hook rid hid fs w = (r, w') ->
  resolver_frame (resolver w) (resolver w') /\
  (setup_log w' = setup_log w \/
   exists h, resolve_hook (config (resolver w)) rid hid = Ok h /\
     setup_log w' = setup_log w ++ [tool_key_of h] /\
     tool_cache (resolver w) !! tool_key_of h = None).
Proof.
  intros H. destruct (run_hook_step _ _ _ _ _ _ H) as [Hfr [Hl|(h & Hr & Hl & Hc & _)]].
  - split; [exact Hfr|left; exact Hl].
  - split; [exact Hfr|right; exists h; auto].
Qed.

Lemma run_hooks_in_order_setups hs fs w r w' :
  run_hooks_in_order hs fs w = (r, w') ->
  resolver_frame (resolver w) (resolver w') /\
  exists new, setup_log w' = setup_log w ++ new /\ NoDup new /\
    Forall (fun k => tool_cache (resolver w) !! k = None /\
      exists rid hid h, In (rid, hid) hs /\ resolve_hook (config (resolver w)) rid hid = Ok h /\
                        k = tool_key_of h) new.
Proof.
  revert w. induction hs as [|[rid hid] hs IH]; intros w H; simpl in H.
  - injection H as _ <-. split; [apply resolver_frame_refl|].
    exists []. split; [by rewrite app_nil_r|split; constructor].
  - destruct (run_hook rid hid fs w) as [[[]|e] w1] eqn:Hs;
      destruct (run_hook_step _ _ _ _ _ _ Hs) as [Hfr1 Hstep].
    + destruct (IH _ H) as [Hfr2 (n2 & Hl2 & Hnd2 & Hn2)].
      split; [exact (resolver_frame_trans _ _ _ Hfr1 Hfr2)|].
      destruct Hfr1 as (Hcfg & _ & _ & Hsub).
      assert (Hn2' : Forall (fun k => tool_cache (resolver w) !! k = None /\
          exists rid' hid' h, In (rid', hid') ((rid, hid) :: hs) /\
            resolve_hook (config (resolver w)) rid' hid' = Ok h /\ k = tool_key_of h) n2).
      { eapply Forall_impl; [exact Hn2|]. intros k [Hk (rid' & hid' & h & Hin & Hres & ->)].
        split.
        - destruct (tool_cache (resolver w) !! tool_key_of h) as [x|] eqn:Hx; [|reflexivity].
          rewrite (lookup_weaken _ _ _ _ Hx Hsub) in Hk. discriminate.
        - exists rid', hid', h. rewrite Hcfg in Hres. split; [right; exact Hin|auto]. }
      destruct Hstep as [Hl1|(h & Hr & Hl1 & Hc & Hok)].
      * exists n2. rewrite Hl2, Hl1. split; [reflexivity|split; [exact Hnd2|exact Hn2']].
      * exists (tool_key_of h :: n2). rewrite Hl2, Hl1, <- app_assoc.
        split; [reflexivity|split].
        -- constructor; [|exact Hnd2]. intros Hin.
           rewrite Forall_forall in Hn2. destruct (Hn2 _ Hin) as [Hk _].
           destruct (Hok eq_refl) as [x Hx]. congruence.
        -- constructor; [|exact Hn2']. split; [exact Hc|].
           exists rid, hid, h. split; [left; reflexivity|auto].
    + injection H as _ <-. split; [exact Hfr1|].
      destruct Hstep as [Hl1|(h & Hr & Hl1 & Hc & _)].
      * exists []. rewrite app_nil_r. split; [exact Hl1|split; constructor].
      * exists [tool_key_of h]. split; [exact Hl1|split].
        -- constructor; [apply not_elem_of_nil|constructor].
        -- constructor; [|constructor]. split; [exact Hc|].
           exists rid, hid, h. split; [left; reflexivity|auto].
Qed.

Lemma hooks_to_run_In cfg skip rid hid :
  In (rid, hid) (hooks_to_run cfg skip) ->
  exists r h, In r (repos cfg) /\ In h (hooks r) /\ existsb (String.eqb (id h)) skip = false /\
              rid = repo r /\ hid = id h.
Proof.
  unfold hooks_to_run. intros Hin. apply in_flat_map in Hin as (r & Hr & Hin).
  apply in_map_iff in Hin as (h & [= <- <-] & Hin). apply filter_In in Hin as [Hh Hsk].
  apply negb_true_iff in Hsk. exists r, h. auto 6.
Qed.

(** A whole resolver run sets every tool up at most once, only tools
    that were not cached when the run started, and only tools of hooks of
    the configuration that are not skipped; it never evicts a cached
    tool nor changes the configuration, cache directory or skip list. *)
Theorem resolver_run_all_hooks_setup_once (fs : list PathBuf) (w w' : World)
    (r : result unit HookResolverError) :
  resolver_run_all_hooks fs w = (r, w') ->
  resolver_frame (resolver w) (resolver w') /\
  exists new, setup_log w' = setup_log w ++ new /\ NoDup new /\
    Forall (fun k => tool_cache (resolver w) !! k = None /\
      exists rp h, In rp (repos (config (resolver w))) /\ In h (hooks rp) /\
        existsb (String.eqb (id h)) (hooks_to_skip (resolver w)) = false /\
        k = tool_key_of h) new.
Proof.
  unfold resolver_run_all_hooks. intros H.
  destruct (run_hooks_in_order_setups _ _ _ _ _ H) as [Hfr (new & Hl & Hnd & Hn)].
  split; [exact Hfr|]. exists new. split; [exact Hl|split; [exact Hnd|]].
  eapply Forall_impl; [exact Hn|]. intros k [Hk (rid & hid & h & Hin & Hres & ->)].
  split; [exact Hk|].
  destruct (hooks_to_run_In _ _ _ _ Hin) as (r0 & h0 & _ & _ & Hsk & _ & Hhid).
  destruct (resolve_hook_found _ _ _ _ Hres) as [Hid (rp & Hrp & _ & Hh)].
  exists rp, h. split; [exact Hrp|split; [exact Hh|split; [|reflexivity]]].
  rewrite Hid, Hhid. exact Hsk.
Qed.

(** *** Commands of separate-process hooks ([src/runner/hook_context.rs]) *)

Lemma string_app_assoc (a b c : string) : ((a ++ b) ++ c = a ++ (b ++ c))%string.
Proof.
  induction a as [|x a IH]; [reflexivity|].
  change (String x ((a ++ b) ++ c) = String x (a ++ (b ++ c)))%string. by rewrite IH.
Qed.

Lemma string_app_nil_r (a : string) : (a ++ "")%string = a.
Proof.
  induction a as [|x a IH]; [reflexivity|].
  change (String x (a ++ "") = String x a)%string. by rewrite IH.
Qed.

Lemma utf8_chars_bytes_not_empty s : Forall (fun ch => ch.2 <> "") (utf8_chars s).
Proof.
  assert (H : forall n s, String.length s < n -> Forall (fun ch => ch.2 <> "") (utf8_chars s)).
  { induction n as [|n IH]; intros t Ht; [lia|].
    destruct t as [|a s1]; simpl; [constructor|]. simpl in Ht.
    repeat match goal with
    | |- context [if ?b then _ else _] => destruct b
    | |- context [match ?x with EmptyString => _ | String _ _ => _ end] => destruct x
    end;
    repeat (constructor; [simpl; discriminate|]);
    first [constructor | apply IH; simpl in *; lia]. }
  exact (H _ s (Nat.lt_succ_diag_r _)).
Qed.

Lemma split_ws_aux_all_ws cs :
  Forall (fun ch => is_whitespace ch.1 = true) cs -> split_ws_aux cs "" = [].
Proof.
  induction cs as [|[c b] cs IH]; intros Hs; simpl; [reflexivity|].
  inversion Hs as [|? ? Hc Hs']; subst. simpl in Hc. rewrite Hc. exact (IH Hs').
Qed.

(** What follows a word: nothing, or a whitespace [char]. *)
Definition word_end (rest : list (N * string)) : Prop :=
  match rest with [] => True | ch :: _ => is_whitespace ch.1 = true end.

Lemma split_ws_aux_word cs cur :
  cur <> "" ->
  exists word rest, cs = word ++ rest /\
    Forall (fun ch => is_whitespace ch.1 = false) word /\ word_end rest /\
    split_ws_aux cs cur = (cur ++ chars_bytes word)%string :: split_ws_aux rest "".
Proof.
  revert cur. induction cs as [|[c b] cs IH]; intros cur Hcur.
  - exists [], []. split; [reflexivity|split; [constructor|split; [exact I|]]].
    simpl. change (chars_bytes []) with "". rewrite string_app_nil_r.
    destruct (String.eqb_spec cur ""); [contradiction|reflexivity].
  - simpl. destruct (is_whitespace c) eqn:Hc.
    + exists [], ((c, b) :: cs). split; [reflexivity|split; [constructor|split; [exact Hc|]]].
      change (chars_bytes []) with "". rewrite string_app_nil_r. simpl. rewrite Hc.
      destruct (String.eqb_spec cur ""); [contradiction|reflexivity].
    + assert (Hne : (cur ++ b)%string <> "") by (destruct cur; [contradiction|discriminate]).
      destruct (IH _ Hne) as (word & rest & -> & Hw & Hr & Hs).
      exists ((c, b) :: word), rest. split; [reflexivity|split; [constructor; assumption|split; [exact Hr|]]].
      rewrite Hs. change (chars_bytes ((c, b) :: word)) with (b ++ chars_bytes word)%string.
      by rewrite string_app_assoc.
Qed.

Lemma split_ws_first cs :
  Forall (fun ch => ch.2 <> "") cs ->
  Exists (fun ch => is_whitespace ch.1 = false) cs ->
  exists lead word rest, cs = lead ++ word ++ rest /\
    Forall (fun ch => is_whitespace ch.1 = true) lead /\
    word <> [] /\ Forall (fun ch => is_whitespace ch.1 = false) word /\ word_end rest /\
    chars_bytes word <> "" /\
    split_ws_aux cs "" = chars_bytes word :: split_ws_aux rest "".
Proof.
  induction cs as [|[c b] cs IH]; intros Hb Hex; [inversion Hex|].
  inversion Hb as [|? ? Hb0 Hbs]; subst. simpl in Hb0.
  simpl. destruct (is_whitespace c) eqn:Hc.
  - assert (Hex' : Exists (fun ch => is_whitespace ch.1 = false) cs)
      by (inversion Hex as [? ? Hx|? ? Hx]; subst; [simpl in Hx; congruence|exact Hx]).
    destruct (IH Hbs Hex') as (lead & word & rest & -> & Hl & Hw & Hnw & Hr & Hne & Hs).
    exists ((c, b) :: lead), word, rest.
    split; [reflexivity|split; [constructor; assumption|]]. auto 6.
  - change (("" ++ b)%string) with b.
    destruct (split_ws_aux_word cs b Hb0) as (word & rest & -> & Hw & Hr & Hs).
    exists [], ((c, b) :: word), rest.
    split; [reflexivity|split; [constructor|split; [discriminate|split; [constructor; assumption|]]]].
    split; [exact Hr|split].
    + change (chars_bytes ((c, b) :: word)) with (b ++ chars_bytes word)%string.
      destruct b; [contradiction|discriminate].
    + exact Hs.
Qed.

(** A separate-process hook whose entry is empty or holds only
    whitespace [char]s (in the sense of [char::is_whitespace], so
    including no-break and other Unicode spaces) fails with the
    empty-entry error and runs nothing.  Otherwise exactly one command is
    run: its program is the entry's first word (the first maximal run of
    non-whitespace [char]s, after the leading whitespace), its arguments
    are the entry's remaining words, then the hook's arguments, then the
    files to process, and its outcome decides the result. *)
Theorem run_in_separate_process_entry (c : HookContext) :
  (Forall (fun ch => is_whitespace ch.1 = true) (utf8_chars (ctx_entry c)) ->
   run_in_separate_process c = Err (HCProcessError ("Empty entry for hook " ++ ctx_id c))) /\
  (Exists (fun ch => is_whitespace ch.1 = false) (utf8_chars (ctx_entry c)) ->
   exists lead word rest cmd,
     utf8_chars (ctx_entry c) = lead ++ word ++ rest /\
     Forall (fun ch => is_whitespace ch.1 = true) lead /\
     word <> [] /\ Forall (fun ch => is_whitespace ch.1 = false) word /\ word_end rest /\
     program cmd = chars_bytes word /\ program cmd <> "" /\
     cmd_args cmd = map ArgStr (split_ws_aux rest "") ++ map ArgStr (ctx_args c)
                      ++ map ArgPath (files_to_process c) /\
     run_in_separate_process c =
       match command_output cmd with
       | Err k => Err (HCIoError k)
       | Ok output =>
           if negb (status_success output)
           then Err (HCProcessError ("Hook " ++ ctx_id c ++ " failed: "
                                       ++ from_utf8_lossy (stderr output)))
           else Ok tt
       end).
Proof.
  unfold run_in_separate_process, split_whitespace. split.
  - intros Hws. by rewrite (split_ws_aux_all_ws _ Hws).
  - intros Hex.
    destruct (split_ws_first _ (utf8_chars_bytes_not_empty _) Hex)
      as (lead & word & rest & Hcs & Hl & Hw & Hnw & Hr & Hne & Hs).
    rewrite Hs.
    exists lead, word, rest,
      (mkCommand (chars_bytes word)
         (map ArgStr (split_ws_aux rest "") ++ map ArgStr (ctx_args c)
            ++ map ArgPath (files_to_process c)) (ctx_env c) (working_dir c)).
    simpl. auto 10.
Qed.

(** *** Cache maintenance ([src/cache/mod.rs]) *)







(** **** Paths and their parents *)









(** **** What removals may touch *)






















(** *** Interpreter version and archive ([src/toolchains/python.rs]) *)

Lemma read_python_version_file_fold dir :
  read_python_version_file dir =
  fold_right (fun d acc => match version_in_file (python_version_file d) with
                           | Some v => Some v | None => acc end) None (ancestors dir).
Proof.
  induction dir as [|c p IH]; simpl.
  - destruct (version_in_file (python_version_file [])); reflexivity.
  - destruct (version_in_file (python_version_file (c :: p))); [reflexivity|].
    destruct (String.eqb c "/" && bool_decide (p = [])); [reflexivity|exact IH].
Qed.

Lemma version_in_file_not_empty x v : version_in_file x = Some v -> v <> "".
Proof.
  destruct x as [[c|k]|]; simpl; try discriminate.
  destruct (String.eqb_spec (trim c) ""); [discriminate|]. intros [= <-]. exact n.
Qed.

(** [read_python_version_file] returns the version of the nearest
    directory, from the start directory up to the root, whose
    [.python-version] yields a non-blank trimmed content; missing,
    unreadable and blank files are passed over, and [None] means no
    directory on the way has a usable file. *)
Theorem read_python_version_file_nearest (dir : Dir) :
  (forall v, read_python_version_file dir = Some v <->
     exists pre d post, ancestors dir = pre ++ d :: post /\
       Forall (fun d' => version_in_file (python_version_file d') = None) pre /\
       version_in_file (python_version_file d) = Some v) /\
  (read_python_version_file dir = None <->
   Forall (fun d => version_in_file (python_version_file d) = None) (ancestors dir)) /\
  (forall v, read_python_version_file dir = Some v -> v <> "").
Proof.
  rewrite read_python_version_file_fold. generalize (ancestors dir) as L. intros L.
  split; [|split].
  - intros v. induction L as [|d L IH]; simpl.
    + split; [discriminate|]. intros (pre & d & post & Hl & _). destruct pre; discriminate.
    + destruct (version_in_file (python_version_file d)) as [v'|] eqn:Hd.
      * split.
        -- intros [= <-]. exists [], d, L. split; [reflexivity|split; [constructor|exact Hd]].
        -- intros (pre & d' & post & Hl & Hpre & Hd').
           destruct pre as [|x pre]; simpl in Hl; injection Hl as -> ->; [congruence|].
           inversion Hpre; congruence.
      * rewrite IH. split.
        -- intros (pre & d' & post & -> & Hpre & Hd').
           exists (d :: pre), d', post. split; [reflexivity|split; [constructor; assumption|exact Hd']].
        -- intros (pre & d' & post & Hl & Hpre & Hd').
           destruct pre as [|x pre]; simpl in Hl; injection Hl as -> ->; [congruence|].
           inversion Hpre; subst. exists pre, d', post. auto.
  - induction L as [|d L IH]; simpl; [split; [constructor|reflexivity]|].
    destruct (version_in_file (python_version_file d)) eqn:Hd.
    + split; [discriminate|]. intros Hf. inversion Hf; congruence.
    + rewrite IH. split; [intros Hf; constructor; assumption|intros Hf; inversion Hf; assumption].
  - intros v. induction L as [|d L IH]; simpl; [discriminate|].
    destruct (version_in_file (python_version_file d)) eqn:Hd; [|exact IH].
    intros [= <-]. exact (version_in_file_not_empty _ _ Hd).
Qed.

Lemma read_node_version_file_fold dir :
  read_node_version_file dir =
  fold_right (fun d acc => match version_in_file (node_version_file d) with
                           | Some v => Some v
                           | None => match version_in_file (nvmrc_file d) with
                                     | Some v => Some v | None => acc end
                           end) None (ancestors dir).
Proof.
  induction dir as [|c p IH]; simpl.
  - destruct (version_in_file (node_version_file [])); [reflexivity|].
    destruct (version_in_file (nvmrc_file [])); reflexivity.
  - destruct (version_in_file (node_version_file (c :: p))); [reflexivity|].
    destruct (version_in_file (nvmrc_file (c :: p))); [reflexivity|].
    destruct (String.eqb c "/" && bool_decide (p = [])); [reflexivity|exact IH].
Qed.

(** The Node.js provisioner takes the version of the nearest directory,
    from the working directory up to the root, that has a usable
    [.node-version] or [.nvmrc]; in one directory [.node-version] wins
    over [.nvmrc].  Without an explicit version [determine_node_version]
    never fails and never returns an empty version. *)
Theorem read_node_version_file_nearest (dir : Dir) (v : string) :
  (read_node_version_file dir = Some v <->
   exists pre d post, ancestors dir = pre ++ d :: post /\
     Forall (fun d' => version_in_file (node_version_file d') = None /\
                       version_in_file (nvmrc_file d') = None) pre /\
     (version_in_file (node_version_file d) = Some v \/
      (version_in_file (node_version_file d) = None /\ version_in_file (nvmrc_file d) = Some v))) /\
  exists r, determine_node_version None = Ok r /\ r <> "".
Proof.
  split.
  - rewrite read_node_version_file_fold. generalize (ancestors dir) as L. intros L.
    induction L as [|d L IH]; simpl.
    + split; [discriminate|]. intros (pre & d & post & Hl & _). destruct pre; discriminate.
    + destruct (version_in_file (node_version_file d)) as [v1|] eqn:H1;
        [|destruct (version_in_file (nvmrc_file d)) as [v2|] eqn:H2].
      * split.
        -- intros [= <-]. exists [], d, L. split; [reflexivity|split; [constructor|left; exact H1]].
        -- intros (pre & d' & post & Hl & Hpre & Hd').
           destruct pre as [|x pre]; simpl in Hl; injection Hl as -> ->;
             [destruct Hd' as [Hd'|[Hd' _]]; congruence|].
           inversion Hpre as [|? ? [Hx _] _]. congruence.
      * split.
        -- intros [= <-]. exists [], d, L.
           split; [reflexivity|split; [constructor|right; split; assumption]].
        -- intros (pre & d' & post & Hl & Hpre & Hd').
           destruct pre as [|x pre]; simpl in Hl; injection Hl as -> ->;
             [destruct Hd' as [Hd'|[_ Hd']]; congruence|].
           inversion Hpre as [|? ? [_ Hx] _]. congruence.
      * rewrite IH. split.
        -- intros (pre & d' & post & -> & Hpre & Hd').
           exists (d :: pre), d', post.
           split; [reflexivity|split; [constructor; [split; assumption|exact Hpre]|exact Hd']].
        -- intros (pre & d' & post & Hl & Hpre & Hd').
           destruct pre as [|x pre]; simpl in Hl; injection Hl as -> ->.
           ++ destruct Hd' as [Hd'|[_ Hd']]; congruence.
           ++ inversion Hpre; subst. exists pre, d', post. auto.
  - unfold determine_node_version.
    destruct (read_node_version_file _) as [r|] eqn:Hr; (eexists; split; [reflexivity|]).
    + rewrite read_node_version_file_fold in Hr.
      revert Hr. generalize (ancestors match current_dir_components with
                                       | Ok d => d | Err _ => ["."] end) as L. intros L.
      induction L as [|d L IH]; simpl; [discriminate|].
      destruct (version_in_file (node_version_file d)) eqn:H1;
        [intros [= <-]; exact (version_in_file_not_empty _ _ H1)|].
      destruct (version_in_file (nvmrc_file d)) eqn:H2;
        [intros [= <-]; exact (version_in_file_not_empty _ _ H2)|exact IH].
    + discriminate.
Qed.

Lemma standalone_url_suffix (platform v : string) :
  standalone_url (platform ++ ".tar.zst") v = (standalone_url platform v ++ ".tar.zst")%string.
Proof. unfold standalone_url. by rewrite !string_app_assoc. Qed.

(** Whatever version is chosen, the download URL the Python provisioner
    builds names a [.tar.zst] archive, so [install_python] always takes
    the prebuilt-interpreter branch; the only failure is an unsupported
    OS/architecture pair, whatever the setup context. *)
Theorem get_python_download_url_archive (ctx : option SetupContext) :
  (forall url, get_python_download_url ctx = Ok url -> exists pre, url = (pre ++ ".tar.zst")%string) /\
  (forall e, get_python_download_url ctx = Err e ->
     e = ExecutionError ("Unsupported OS/architecture: " ++ os ++ "/" ++ arch)%string).
Proof.
  unfold get_python_download_url. cbv zeta.
  repeat match goal with
  | |- context [if ?b then _ else _] => destruct b
  end.
  all: split; [intros url Hurl|intros e He].
  all: try (injection He as <-; reflexivity); try discriminate.
  all: injection Hurl as <-.
  all: match goal with |- exists pre, standalone_url ?lit ?v = _ =>
         exists (standalone_url (substring 0 (String.length lit - 8) lit) v);
         rewrite <- standalone_url_suffix; reflexivity end.
Qed.

End Engine.

(** ** Examples on concrete inputs *)

(** C1 on [sample_config]: the run dispatches [sample_trace], and the two
    write hooks sharing its second batch have distinct, non-empty
    patterns. *)
Lemma run_all_hooks_write_batches_disjoint_witness :
  run_all_hooks string (fun s => Some s) sample_regex_is_match unit (fun _ _ => true)
      string_of_list_byte (fun _ => Ok tt) (fun b => b) sample_config [] sample_files [] = (Ok tt, sample_trace) /\
  (files sample_W1 <> files sample_W2 /\ files sample_W1 <> "" /\ files sample_W2 <> "").
Proof.
  assert (H : run_all_hooks string (fun s => Some s) sample_regex_is_match unit (fun _ _ => true)
      string_of_list_byte (fun _ => Ok tt) (fun b => b) sample_config [] sample_files [] = (Ok tt, sample_trace))
    by (vm_compute; reflexivity).
  split; [exact H|].
  destruct (run_all_hooks_write_batches_disjoint string (fun s => Some s) sample_regex_is_match
              unit (fun _ _ => true) string_of_list_byte (fun _ => Ok tt) (fun b => b)
              sample_config [] sample_files (Ok tt) sample_trace H) as (_ & _ & Hb).
  exact (Hb _ (or_intror (or_introl eq_refl)) 0 1 _ _ ltac:(discriminate)
            eq_refl eq_refl eq_refl eq_refl).
Defined.

(** C10 on [sample_config]: the pattern-less write hook [W3] is dispatched
    in a batch of its own. *)
Lemma run_all_hooks_empty_pattern_alone_witness :
  run_all_hooks string (fun s => Some s) sample_regex_is_match unit (fun _ _ => true)
      string_of_list_byte (fun _ => Ok tt) (fun b => b) sample_config [] sample_files [] = (Ok tt, sample_trace) /\
  [("local", "W3", sample_W3, sample_files)] = [("local", "W3", sample_W3, sample_files)].
Proof.
  assert (H : run_all_hooks string (fun s => Some s) sample_regex_is_match unit (fun _ _ => true)
      string_of_list_byte (fun _ => Ok tt) (fun b => b) sample_config [] sample_files [] = (Ok tt, sample_trace))
    by (vm_compute; reflexivity).
  split; [exact H|].
  destruct (run_all_hooks_empty_pattern_alone string (fun s => Some s) sample_regex_is_match
              unit (fun _ _ => true) string_of_list_byte (fun _ => Ok tt) (fun b => b)
              sample_config [] sample_files (Ok tt) sample_trace H) as (_ & Hb).
  exact (Hb _ _ (or_intror (or_intror (or_introl eq_refl))) (or_introl eq_refl)
            eq_refl eq_refl).
Defined.

(** C2 on [sample_config], whose [fail_fast] is off, with every task
    failing: the run returns the read pool's error after dispatching that
    batch alone, and turning [fail_fast] on changes nothing. *)
Lemma run_all_hooks_stops_at_first_failing_batch_witness :
  fail_fast sample_config = false /\
  run_all_hooks string (fun s => Some s) sample_regex_is_match unit (fun _ _ => true)
      string_of_list_byte (fun _ => Err TokioError) (fun b => b) sample_config [] sample_files []
    = (Err TokioError, [nth 0 sample_trace []]) /\
  run_all_hooks string (fun s => Some s) sample_regex_is_match unit (fun _ _ => true)
      string_of_list_byte (fun _ => Err TokioError) (fun b => b)
      (mkConfig (default_stages sample_config) true (parallelism sample_config)
         (repos sample_config)) [] sample_files []
    = (Err TokioError, [nth 0 sample_trace []]) /\
  exists pre b, [nth 0 sample_trace []] = (pre ++ [b])%list /\
                join_all (fun _ => Err TokioError) b = Err TokioError.
Proof.
  assert (H : run_all_hooks string (fun s => Some s) sample_regex_is_match unit (fun _ _ => true)
      string_of_list_byte (fun _ => Err TokioError) (fun b => b) sample_config [] sample_files []
                = (Err TokioError, [nth 0 sample_trace []]))
    by (vm_compute; reflexivity).
  destruct (run_all_hooks_stops_at_first_failing_batch string (fun s => Some s)
              sample_regex_is_match unit (fun _ _ => true) string_of_list_byte
              (fun _ => Err TokioError) (fun b => b) sample_config true [] sample_files
              (Err TokioError) [nth 0 sample_trace []]) as [Hff Hs].
  split; [reflexivity|split; [exact H|split; [rewrite Hff; exact H|]]].
  destruct (Hs H) as [[Ht _]|(pre & b & Ht & _ & Hb)]; [discriminate|].
  exists pre, b. split; [exact Ht|exact Hb].
Defined.

(** C3 on the hook [W1] (pattern [src/]): its context carries the staged
    files its pattern prefixes, in input order. *)
Lemma create_context_files_to_process_witness :
  create_context string (fun s => Some s) sample_regex_is_match unit (fun _ _ => true)
    string_of_list_byte (Ok []) (fun _ => "") sample_W1 sample_files
    = Ok (from_hook sample_W1 [] [sample_src]) /\
  files_to_process (from_hook sample_W1 [] [sample_src])
    = List.filter (fun p => sample_regex_is_match "src/" (string_of_list_byte p)) sample_files.
Proof.
  assert (H : create_context string (fun s => Some s) sample_regex_is_match unit
                (fun _ _ => true) string_of_list_byte (Ok []) (fun _ => "") sample_W1 sample_files
              = Ok (from_hook sample_W1 [] [sample_src]))
    by (vm_compute; reflexivity).
  split; [exact H|].
  destruct (create_context_files_to_process string (fun s => Some s) sample_regex_is_match
              unit (fun _ _ => true) string_of_list_byte (Ok []) (fun _ => "")
              sample_W1 sample_files _ H) as [_ Hne].
  destruct (Hne ltac:(simpl; discriminate)) as (r & Hr & Hf & _).
  injection Hr as <-. exact Hf.
Defined.

(** C7 on the external hook [W1]: with files to process, [execute] is the
    subprocess run, whatever tool is supplied. *)
Lemma execute_dispatch_witness :
  files_to_process (from_hook sample_W1 [] [sample_src]) <> [] /\
  execute (fun _ => Ok (mkOutput true [])) (fun _ => "") (fun _ _ => Ok tt)
    (from_hook sample_W1 [] [sample_src]) None
  = run_in_separate_process (fun _ => Ok (mkOutput true [])) (fun _ => "")
      (from_hook sample_W1 [] [sample_src]).
Proof.
  assert (Hne : files_to_process (from_hook sample_W1 [] [sample_src]) <> [])
    by (simpl; discriminate).
  split; [exact Hne|].
  destruct (execute_dispatch (fun _ => Ok (mkOutput true [])) (fun _ => "")
              (fun _ _ => Ok tt) _ Hne) as (_ & Hsep & _).
  exact (Hsep eq_refl None).
Defined.

(** C4 on the Python hook [black].  With a provisioner whose [setup]
    succeeds, the first call installs and caches the tool under
    [python-black] and the second returns it and changes nothing.  With
    one whose [setup] fails, the first call caches nothing and the next
    call runs [setup] again. *)
Lemma setup_tool_caches_success_retries_failure_witness :
  setup_tool unit (fun _ _ s => (Ok tt, s)) sample_black
    (mkWorld unit (mkHookResolver sample_config "/cache" ∅ []) tt [])
  = (Ok (PythonT "black" "latest" ["black"]),
     mkWorld unit (insert_tool (mkHookResolver sample_config "/cache" ∅ []) "python-black"
                     (PythonT "black" "latest" ["black"])) tt ["python-black"]) /\
  setup_tool unit (fun _ _ s => (Ok tt, s)) sample_black
    (mkWorld unit (insert_tool (mkHookResolver sample_config "/cache" ∅ []) "python-black"
                     (PythonT "black" "latest" ["black"])) tt ["python-black"])
  = (Ok (PythonT "black" "latest" ["black"]),
     mkWorld unit (insert_tool (mkHookResolver sample_config "/cache" ∅ []) "python-black"
                     (PythonT "black" "latest" ["black"])) tt ["python-black"]) /\
  setup_log unit (snd (setup_tool unit (fun _ _ s => (Err (InstallationError "pip failed"), s))
                    sample_black
                    (mkWorld unit (mkHookResolver sample_config "/cache" ∅ []) tt ["python-black"])))
  = ["python-black"; "python-black"].
Proof.
  assert (H : setup_tool unit (fun _ _ s => (Ok tt, s)) sample_black
                (mkWorld unit (mkHookResolver sample_config "/cache" ∅ []) tt [])
              = (Ok (PythonT "black" "latest" ["black"]),
                 mkWorld unit (insert_tool (mkHookResolver sample_config "/cache" ∅ [])
                                 "python-black" (PythonT "black" "latest" ["black"]))
                   tt ["python-black"]))
    by (vm_compute; reflexivity).
  assert (Hf : setup_tool unit (fun _ _ s => (Err (InstallationError "pip failed"), s)) sample_black
                 (mkWorld unit (mkHookResolver sample_config "/cache" ∅ []) tt [])
               = (Err (RToolError (InstallationError "pip failed")),
                  mkWorld unit (mkHookResolver sample_config "/cache" ∅ []) tt ["python-black"]))
    by (vm_compute; reflexivity).
  split; [exact H|].
  destruct (setup_tool_caches_success_retries_failure unit (fun _ _ s => (Ok tt, s))
              (fun _ _ => true) (fun _ _ s => (Ok tt, s)) (fun _ _ s => (Ok tt, s))
              sample_black _ _ _ H) as [(_ & _ & _ & Hagain) _].
  split; [exact Hagain|].
  destruct (setup_tool_caches_success_retries_failure unit
              (fun _ _ s => (Err (InstallationError "pip failed"), s))
              (fun _ _ => true) (fun _ _ s => (Ok tt, s)) (fun _ _ s => (Ok tt, s))
              sample_black _ _ _ Hf) as [(_ & Hnone & [(Hct & _)|(tool & _ & _ & Hretry)]) _];
    [discriminate Hct|].
  exact (Hretry _ Hnone).
Defined.

(** C4 as stated fails: when the provisioner's [setup] fails, two
    successive calls for the Python hook [black] both run [setup] (the
    setup log holds its key twice) and leave no cache entry; for a hook
    of an unsupported language no call caches anything either. *)
Lemma setup_tool_failed_setup_counterexample :
  setup_tool unit (fun _ _ s => (Err (InstallationError "pip failed"), s)) sample_black
    (mkWorld unit (mkHookResolver sample_config "/cache" ∅ []) tt [])
  = (Err (RToolError (InstallationError "pip failed")),
     mkWorld unit (mkHookResolver sample_config "/cache" ∅ []) tt ["python-black"]) /\
  setup_tool unit (fun _ _ s => (Err (InstallationError "pip failed"), s)) sample_black
    (mkWorld unit (mkHookResolver sample_config "/cache" ∅ []) tt ["python-black"])
  = (Err (RToolError (InstallationError "pip failed")),
     mkWorld unit (mkHookResolver sample_config "/cache" ∅ []) tt
       ["python-black"; "python-black"]) /\
  tool_cache (mkHookResolver sample_config "/cache" ∅ []) !! "python-black" = None /\
  setup_tool unit (fun _ _ s => (Ok tt, s)) (sample_hook "fmt" "cobfmt" "cobol" "" ReadWrite)
    (mkWorld unit (mkHookResolver sample_config "/cache" ∅ []) tt [])
  = (Err (UnsupportedLanguage "cobol"),
     mkWorld unit (mkHookResolver sample_config "/cache" ∅ []) tt []).
Proof. repeat split; vm_compute; reflexivity. Qed.

(** C8 with a string-valued cache whose serializer is the identity: after
    [set] at time 10 with [max_age = 100], [get] returns the value at
    time 50 and nothing at time 200. *)
Lemma cache_set_then_get_witness :
  (forall s : string, @Ok string unit "entry" = Ok s -> @Ok string unit s = Ok "entry") /\
  set string (fun x => Ok x) (mkCacheManager "/cache" 100) "k" "entry" ∅ 10
    = (Ok tt, <["/cache/k" := NFile "entry" 10]> (<["/cache" := NDir 10]> ∅)) /\
  (10 <= 50)%N /\ (10 <= 200)%N /\
  get string (fun x => Ok x) (mkCacheManager "/cache" 100) "k"
    (<["/cache/k" := NFile "entry" 10]> (<["/cache" := NDir 10]> ∅)) 50 = Ok (Some "entry") /\
  get string (fun x => Ok x) (mkCacheManager "/cache" 100) "k"
    (<["/cache/k" := NFile "entry" 10]> (<["/cache" := NDir 10]> ∅)) 200 = Ok None.
Proof.
  assert (Hrt : forall s : string, @Ok string unit "entry" = Ok s -> @Ok string unit s = Ok "entry")
    by (intros s Hs; injection Hs as <-; reflexivity).
  assert (Hset : set string (fun x => Ok x) (mkCacheManager "/cache" 100) "k" "entry" ∅ 10
                 = (Ok tt, <["/cache/k" := NFile "entry" 10]> (<["/cache" := NDir 10]> ∅)))
    by (vm_compute; reflexivity).
  assert (H50 : (10 <= 50)%N) by lia.
  assert (H200 : (10 <= 200)%N) by lia.
  destruct (cache_set_then_get string (fun x => Ok x) (fun x => Ok x) (mkCacheManager "/cache" 100)
              "k" "entry" _ _ 10 50 Hrt Hset H50) as [Hfresh _].
  destruct (cache_set_then_get string (fun x => Ok x) (fun x => Ok x) (mkCacheManager "/cache" 100)
              "k" "entry" _ _ 10 200 Hrt Hset H200) as [_ [Hstale _]].
  split; [exact Hrt|split; [exact Hset|split; [exact H50|split; [exact H200|split]]]].
  - apply Hfresh. simpl. lia.
  - apply Hstale. simpl. lia.
Defined.

(** C9 on [sample_config], whose hook ids are distinct: the unit of [W1]
    is resolved to [W1] again, and its context carries the unit's files. *)
Lemma filter_files_idempotent_run_hook_agrees_witness :
  resolve_hook sample_config "local" "W1" = Ok sample_W1 /\
  create_context string (fun s => Some s) sample_regex_is_match unit (fun _ _ => true)
    string_of_list_byte (Ok []) (fun _ => "") sample_W1 [sample_src]
    = Ok (from_hook sample_W1 [] [sample_src]).
Proof.
  assert (H : prepare_hook_contexts string (fun s => Some s) sample_regex_is_match unit
                (fun _ _ => true) string_of_list_byte sample_config [] sample_files
              = Ok (List.concat sample_trace)) by (vm_compute; reflexivity).
  assert (Hnr : NoDup (map repo (repos sample_config)))
    by (apply (bool_decide_unpack _); vm_compute; reflexivity).
  assert (Hnh : Forall (fun r => NoDup (map id (hooks r))) (repos sample_config))
    by (apply (bool_decide_unpack _); vm_compute; reflexivity).
  destruct (filter_files_idempotent_run_hook_agrees string (fun s => Some s)
              sample_regex_is_match unit (fun _ _ => true) string_of_list_byte (Ok [])
              (fun _ => "") sample_config [] sample_files (List.concat sample_trace))
    as [_ Hagree].
  pose proof (Hagree H Hnr Hnh) as HF. rewrite List.Forall_forall in HF.
  destruct (HF ("local", "W1", sample_W1, [sample_src])) as [Hr Hc];
    [vm_compute; right; left; reflexivity|].
  split; [exact Hr|exact (Hc [] eq_refl)].
Defined.

(** C9 as stated fails when two hooks of a repository share an id: the
    unit of the second hook [dup] holds [src/a.rs], but [run_hook] on it
    resolves the first hook, filters the file out with that hook's
    pattern [docs/], and returns without running anything (a tool that
    always fails is never called and no setup is made). *)
Lemma filter_files_idempotent_run_hook_agrees_counterexample :
  prepare_hook_contexts string (fun s => Some s) sample_regex_is_match unit (fun _ _ => true)
    string_of_list_byte sample_dupid_config [] sample_files
    = Ok [("local", "dup", sample_dup_docs, [sample_doc]);
          ("local", "dup", sample_dup_src, [sample_src])] /\
  resolve_hook sample_dupid_config "local" "dup" = Ok sample_dup_docs /\
  create_context string (fun s => Some s) sample_regex_is_match unit (fun _ _ => true)
    string_of_list_byte (Ok []) (fun _ => "") sample_dup_docs [sample_src]
    = Ok (from_hook sample_dup_docs [] []) /\
  run_hook string (fun s => Some s) sample_regex_is_match unit (fun _ _ => true)
      string_of_list_byte (fun _ => Ok (mkOutput true [])) (fun _ => "") unit
      (fun _ _ => Err (ExecutionError "ran")) (fun _ _ s => (Ok tt, s)) (Ok []) (fun _ => "")
      "local" "dup" [sample_src]
      (mkWorld unit (mkHookResolver sample_dupid_config "/cache" ∅ []) tt [])
    = (Ok tt, mkWorld unit (mkHookResolver sample_dupid_config "/cache" ∅ []) tt []).
Proof. repeat split; vm_compute; reflexivity. Qed.

(** C5: when spawning the entry command fails because the program does
    not exist, [run_in_separate_process] returns the converted
    [io::Error] ([IoError] of kind [NotFound]); [HookContextError] has no
    [CommandNotFound] variant.  A non-zero exit gives [ProcessError]. *)
Lemma run_in_separate_process_spawn_not_found :
  run_in_separate_process (fun _ => Err NotFound) (fun _ => "")
    (from_hook (sample_hook "lint" "missing-linter --check" "system" "" Read) [] [sample_src])
  = Err (HCIoError NotFound) /\
  run_in_separate_process (fun _ => Ok (mkOutput false [])) (fun _ => "boom")
    (from_hook (sample_hook "lint" "missing-linter --check" "system" "" Read) [] [sample_src])
  = Err (HCProcessError "Hook lint failed: boom").
Proof. split; vm_compute; reflexivity. Qed.

(** C6: the Python provisioner's download URL ignores the version of the
    descriptor carried by its setup context: with descriptor version
    [3.12.1] and no [.python-version] file it downloads the pinned
    [3.9.18], and with a [.python-version] of [3.11.4] in the working
    directory it downloads [3.11.4].  The Node.js provisioner, given the
    same explicit version, uses it. *)
Lemma python_download_url_ignores_descriptor_version :
  get_python_download_url (fun _ => None) (Ok ["proj"; "/"]) "linux" "x86_64"
    (Some (mkSetupContext "/cache/venvs/python-black" "/cache/cache/python-black" false
             (Some "3.12.1")))
  = Ok (standalone_url "linux-x86_64-shared-install_only.tar.zst" "3.9.18") /\
  get_python_download_url
    (fun d => match d with
              | [c; _] => if String.eqb c "proj" then Some (Ok "3.11.4 ") else None
              | _ => None
              end)
    (Ok ["proj"; "/"]) "linux" "x86_64"
    (Some (mkSetupContext "/cache/venvs/python-black" "/cache/cache/python-black" false
             (Some "3.12.1")))
  = Ok (standalone_url "linux-x86_64-shared-install_only.tar.zst" "3.11.4") /\
  determine_node_version (Ok ["proj"; "/"]) (fun _ => None) (fun _ => None) (Some "3.12.1")
  = Ok "3.12.1".
Proof. repeat split; vm_compute; reflexivity. Qed.

(** ** Examples for the further properties *)

(** Preparation on [sample_config]: four units, each with a non-empty
    file list. *)
Lemma prepare_hook_contexts_units_witness :
  prepare_hook_contexts string (fun s => Some s) sample_regex_is_match unit (fun _ _ => true)
    string_of_list_byte sample_config [] sample_files = Ok (List.concat sample_trace) /\
  Forall (fun u : ExecUnit => let '(_, _, _, fs) := u in fs <> []) (List.concat sample_trace).
Proof.
  assert (H : prepare_hook_contexts string (fun s => Some s) sample_regex_is_match unit
                (fun _ _ => true) string_of_list_byte sample_config [] sample_files
              = Ok (List.concat sample_trace)) by (vm_compute; reflexivity).
  split; [exact H|].
  eapply prepare_hook_contexts_units in H.
  eapply Forall_impl; [exact H|]. intros [[[rid hid] h] fs] (_ & _ & _ & Hne & _). exact Hne.
Defined.

(** The run on [sample_config] dispatches the four prepared units once
    each. *)
Lemma run_all_hooks_dispatches_each_unit_once_witness :
  run_all_hooks string (fun s => Some s) sample_regex_is_match unit (fun _ _ => true)
      string_of_list_byte (fun _ => Ok tt) (fun b => b) sample_config [] sample_files []
    = (Ok tt, sample_trace) /\
  exists us, prepare_hook_contexts string (fun s => Some s) sample_regex_is_match unit
               (fun _ _ => true) string_of_list_byte sample_config [] sample_files = Ok us /\
             List.concat sample_trace ≡ₚ us.
Proof.
  assert (H : run_all_hooks string (fun s => Some s) sample_regex_is_match unit (fun _ _ => true)
      string_of_list_byte (fun _ => Ok tt) (fun b => b) sample_config [] sample_files []
      = (Ok tt, sample_trace)) by (vm_compute; reflexivity).
  split; [exact H|].
  eapply run_all_hooks_dispatches_each_unit_once in H.
  destruct H as (us & rb & wb & Hp & Ht & _ & _ & Hperm).
  exists us. split; [exact Hp|]. rewrite Ht. exact Hperm.
Defined.

(** With [parallelism = 1] every dispatched batch holds exactly one
    unit. *)
Lemma run_all_hooks_batch_size_witness :
  (0 < parallelism sample_config_p1)%nat /\
  Forall (fun b => b <> [] /\ (List.length b <= 1)%nat)
    (snd (run_all_hooks string (fun s => Some s) sample_regex_is_match unit (fun _ _ => true)
            string_of_list_byte (fun _ => Ok tt) (fun b => b) sample_config_p1 [] sample_files [])).
Proof.
  assert (Hp : (0 < parallelism sample_config_p1)%nat) by (vm_compute; lia).
  assert (H : run_all_hooks string (fun s => Some s) sample_regex_is_match unit (fun _ _ => true)
      string_of_list_byte (fun _ => Ok tt) (fun b => b) sample_config_p1 [] sample_files []
      = (fst (run_all_hooks string (fun s => Some s) sample_regex_is_match unit (fun _ _ => true)
                string_of_list_byte (fun _ => Ok tt) (fun b => b) sample_config_p1 [] sample_files []),
         snd (run_all_hooks string (fun s => Some s) sample_regex_is_match unit (fun _ _ => true)
                string_of_list_byte (fun _ => Ok tt) (fun b => b) sample_config_p1 [] sample_files [])))
    by (vm_compute; reflexivity).
  split; [exact Hp|].
  eapply run_all_hooks_batch_size in H; [|exact Hp].
  destruct H as (new & Ht & Hnew). rewrite Ht. exact Hnew.
Defined.

(** In [sample_dup_config] the hook [W1] of the second [local]
    repository is unreachable. *)
Lemma resolve_hook_first_repo_shadows_witness :
  In sample_W1 (hooks (mkRepo "local" [sample_W1])) /\
  resolve_hook sample_dup_config "local" "W1"
    = Err (HookNotFound "Hook W1 not found in repository local").
Proof.
  split; [left; reflexivity|].
  apply (resolve_hook_first_repo_shadows sample_dup_config "local" "W1" []
           (mkRepo "local" [sample_R1]) [mkRepo "local" [sample_W1]]).
  - reflexivity.
  - constructor.
  - reflexivity.
  - constructor; [vm_compute; discriminate|constructor].
Defined.

(** Running [black] once in a world with an empty tool cache: the run
    keeps the resolver's frame. *)
Lemma run_hook_world_frame_witness :
  run_hook string (fun s => Some s) sample_regex_is_match unit (fun _ _ => true)
      string_of_list_byte (fun _ => Ok (mkOutput true [])) (fun _ => "") unit
      (fun _ _ => Ok tt) (fun _ _ s => (Ok tt, s)) (Ok []) (fun _ => "")
      "local" "black" sample_files
      (mkWorld unit (mkHookResolver sample_black_config "/cache" ∅ []) tt [])
    = (Ok tt, mkWorld unit (insert_tool (mkHookResolver sample_black_config "/cache" ∅ [])
                              "python-black" (PythonT "black" "latest" ["black"]))
                tt ["python-black"]) /\
  resolver_frame (mkHookResolver sample_black_config "/cache" ∅ [])
    (insert_tool (mkHookResolver sample_black_config "/cache" ∅ [])
       "python-black" (PythonT "black" "latest" ["black"])).
Proof.
  assert (H : run_hook string (fun s => Some s) sample_regex_is_match unit (fun _ _ => true)
      string_of_list_byte (fun _ => Ok (mkOutput true [])) (fun _ => "") unit
      (fun _ _ => Ok tt) (fun _ _ s => (Ok tt, s)) (Ok []) (fun _ => "")
      "local" "black" sample_files
      (mkWorld unit (mkHookResolver sample_black_config "/cache" ∅ []) tt [])
    = (Ok tt, mkWorld unit (insert_tool (mkHookResolver sample_black_config "/cache" ∅ [])
                              "python-black" (PythonT "black" "latest" ["black"]))
                tt ["python-black"])) by (vm_compute; reflexivity).
  split; [exact H|].
  eapply run_hook_world_frame in H. destruct H as [Hfr _]. exact Hfr.
Defined.

(** The whole run over [sample_black_config] sets [python-black] up
    once. *)
Lemma resolver_run_all_hooks_setup_once_witness :
  resolver_run_all_hooks string (fun s => Some s) sample_regex_is_match unit (fun _ _ => true)
      string_of_list_byte (fun _ => Ok (mkOutput true [])) (fun _ => "") unit
      (fun _ _ => Ok tt) (fun _ _ s => (Ok tt, s)) (Ok []) (fun _ => "") sample_files
      (mkWorld unit (mkHookResolver sample_black_config "/cache" ∅ []) tt [])
    = (Ok tt, mkWorld unit (insert_tool (mkHookResolver sample_black_config "/cache" ∅ [])
                              "python-black" (PythonT "black" "latest" ["black"]))
                tt ["python-black"]) /\
  NoDup ["python-black"].
Proof.
  assert (H : resolver_run_all_hooks string (fun s => Some s) sample_regex_is_match unit
      (fun _ _ => true) string_of_list_byte (fun _ => Ok (mkOutput true [])) (fun _ => "") unit
      (fun _ _ => Ok tt) (fun _ _ s => (Ok tt, s)) (Ok []) (fun _ => "") sample_files
      (mkWorld unit (mkHookResolver sample_black_config "/cache" ∅ []) tt [])
    = (Ok tt, mkWorld unit (insert_tool (mkHookResolver sample_black_config "/cache" ∅ [])
                              "python-black" (PythonT "black" "latest" ["black"]))
                tt ["python-black"])) by (vm_compute; reflexivity).
  split; [exact H|].
  eapply resolver_run_all_hooks_setup_once in H.
  destruct H as [_ (new & Hl & Hnd & _)]. simpl in Hl. rewrite Hl. exact Hnd.
Defined.


(** An entry made only of a no-break space (U+00A0, the bytes C2 A0)
    holds no word: the hook fails with the empty-entry error. *)
Lemma run_in_separate_process_entry_witness :
  Forall (fun ch => is_whitespace ch.1 = true)
    (utf8_chars (String (ascii_of_nat 194) (String (ascii_of_nat 160) EmptyString))) /\
  run_in_separate_process (fun _ => Ok (mkOutput true [])) (fun _ => "")
    (from_hook (sample_hook "nbsp" (String (ascii_of_nat 194) (String (ascii_of_nat 160) EmptyString))
                  "system" "" Read) [] [sample_src])
  = Err (HCProcessError "Empty entry for hook nbsp").
Proof.
  assert (Hws : Forall (fun ch => is_whitespace ch.1 = true)
    (utf8_chars (String (ascii_of_nat 194) (String (ascii_of_nat 160) EmptyString))))
    by (vm_compute; repeat constructor).
  split; [exact Hws|].
  destruct (run_in_separate_process_entry (fun _ => Ok (mkOutput true [])) (fun _ => "")
              (from_hook (sample_hook "nbsp"
                            (String (ascii_of_nat 194) (String (ascii_of_nat 160) EmptyString))
                            "system" "" Read) [] [sample_src])) as [Hempty _].
  exact (Hempty Hws).
Defined.


